(** * cheatcheat: layered cheatsheet resolution, listing, search and edit routing

    A shallow embedding of [src/cheatcheat/main.py] and the properties of
    its layered-path model: [get_cheatpaths], [find_cheatsheet],
    [list_cheatsheets], [search_cheatsheets] and [edit_cheatsheet].

    Python values are modelled as follows.
    - [str] is [string], one [ascii] per character: the text of names,
      search terms and files is taken to be ASCII; the characterisation
      of the search hits states that as hypotheses ([isascii],
      [ascii_text]).
    - a cheatpath dict is the record [layer]; its [readonly] key is
      optional because the code reads it with [.get('readonly', False)].
    - the filesystem is a directory tree ([node]); the order of a
      directory's entries is the order in which [os.scandir] enumerates
      them.  The tree has regular files and directories only (no symbolic
      links, no permissions, no special files).
    - [print] and [subprocess.call] are recorded as events; [sys.exit]
      and uncaught exceptions are outcomes.
    - [posixpath], [fnmatch], [glob], [os.walk], [os.makedirs] and
      [shutil.copy2] are modelled after CPython's POSIX implementations
      (CPython 3.11 for [fnmatch.translate] and [glob]). *)

From Stdlib Require Import ZArith Ascii String.
From stdpp Require Import base list strings gmap sorting pretty.

Local Open Scope string_scope.
Local Open Scope list_scope.

(** ** Python [str] helpers *)

Module Str.

Definition sep : ascii := "/"%char.
Definition extsep : ascii := "."%char.

(** [s.startswith(p)] *)
Definition startswith (s p : string) : bool := String.prefix p s.

(** [s.endswith(p)] *)
Definition endswith (s p : string) : bool :=
  String.prefix (String.rev p) (String.rev s).

(** [s.split(c)] for a one-character separator: never empty. *)
Fixpoint split (c : ascii) (s : string) : list string :=
  match s with
  | EmptyString => [""]
  | String a s' =>
      if Ascii.eqb a c then "" :: split c s'
      else match split c s' with
           | [] => [String a ""]
           | h :: t => String a h :: t
           end
  end.

(** [c.join(l)] *)
Definition join (c : string) (l : list string) : string := String.concat c l.

(** [(s[:i], s[i:])] with [i = s.rfind(c) + 1]. *)
Fixpoint rpartition (c : ascii) (s : string) : string * string :=
  match s with
  | EmptyString => ("", "")
  | String a s' =>
      let '(h, t) := rpartition c s' in
      match h with
      | EmptyString =>
          if Ascii.eqb a c then (String a "", t) else ("", String a t)
      | _ => (String a h, t)
      end
  end.

(** [s.rstrip(c)] for a single character [c]. *)
Fixpoint rstrip_char (c : ascii) (s : string) : string :=
  match s with
  | EmptyString => ""
  | String a s' =>
      match rstrip_char c s' with
      | EmptyString => if Ascii.eqb a c then "" else String a ""
      | r => String a r
      end
  end.

(** [s == c * len(s)] *)
Fixpoint all_char (c : ascii) (s : string) : bool :=
  match s with
  | EmptyString => true
  | String a s' => Ascii.eqb a c && all_char c s'
  end.

(** [c in s] for a single character. *)
Fixpoint mem_char (c : ascii) (s : string) : bool :=
  match s with
  | EmptyString => false
  | String a s' => Ascii.eqb a c || mem_char c s'
  end.

(** [p in s]: substring test. *)
Fixpoint contains (s p : string) : bool :=
  String.prefix p s ||
  match s with
  | EmptyString => false
  | String _ s' => contains s' p
  end.


(** [str.lower] on ASCII text: the letters [A] to [Z] are the only
    characters below 128 with a lower-case form. *)
Definition lower_char (a : ascii) : ascii :=
  let n := nat_of_ascii a in
  if (65 <=? n)%nat && (n <=? 90)%nat then ascii_of_nat (n + 32) else a.

Fixpoint lower (s : string) : string :=
  match s with
  | EmptyString => ""
  | String a s' => String (lower_char a) (lower s')
  end.

(** [str.isspace] on ASCII characters: TAB, LF, VT, FF, CR, FS, GS, RS,
    US and space. *)
Definition isspace (a : ascii) : bool :=
  let n := nat_of_ascii a in
  ((9 <=? n)%nat && (n <=? 13)%nat) || ((28 <=? n)%nat && (n <=? 32)%nat).

Fixpoint lstrip (s : string) : string :=
  match s with
  | EmptyString => ""
  | String a s' => if isspace a then lstrip s' else s
  end.

Fixpoint rstrip (s : string) : string :=
  match s with
  | EmptyString => ""
  | String a s' =>
      match rstrip s' with
      | EmptyString => if isspace a then "" else String a ""
      | r => String a r
      end
  end.

(** [s.strip()] *)
Definition strip (s : string) : string := rstrip (lstrip s).

End Str.

(** ** [posixpath] *)

Module PosixPath.

Import Str.

Definition isabs (p : string) : bool := startswith p "/".

(** [os.path.join(a, b)] *)
Definition join (a b : string) : string :=
  if startswith b "/" then b
  else if String.eqb a "" || endswith a "/" then a +:+ b
  else a +:+ "/" +:+ b.

(** [os.path.split(p)] *)
Definition split (p : string) : string * string :=
  let '(head, tail) := rpartition sep p in
  if negb (String.eqb head "") && negb (all_char sep head)
  then (rstrip_char sep head, tail)
  else (head, tail).

Definition dirname (p : string) : string := fst (split p).
Definition basename (p : string) : string := snd (rpartition sep p).

(** [os.path.splitext(p)]: the extension starts at the last dot of the
    final segment, leading dots of that segment not counted. *)
Definition splitext (p : string) : string * string :=
  let '(head, tail) := rpartition sep p in
  let '(pre, suf) := rpartition extsep tail in
  (* [pre] ends with the last dot of [tail] when there is one *)
  match String.rev pre with
  | EmptyString => (p, "")
  | String _ rstem =>
      if all_char extsep rstem then (p, "")
      else (head +:+ String.rev rstem, String extsep suf)
  end.

(** One step of the component loop of [normpath]. *)
Definition norm_step (initial_slashes : nat) (new_comps : list string)
    (comp : string) : list string :=
  if String.eqb comp "" || String.eqb comp "." then new_comps
  else if negb (String.eqb comp "..")
          || (Nat.eqb initial_slashes 0 && bool_decide (new_comps = []))
          || bool_decide (last new_comps = Some "..")
       then new_comps ++ [comp]
       else removelast new_comps.

(** [os.path.normpath(path)] *)
Definition normpath (path : string) : string :=
  if String.eqb path "" then "."
  else
    let initial_slashes :=
      if startswith path "/"
      then if startswith path "//" && negb (startswith path "///")
           then 2%nat else 1%nat
      else 0%nat in
    let comps := fold_left (norm_step initial_slashes) (Str.split sep path) [] in
    let path' := Str.join "/" comps in
    let path' :=
      match initial_slashes with
      | 0%nat => path'
      | 1%nat => "/" +:+ path'
      | _ => "//" +:+ path'
      end in
    if String.eqb path' "" then "." else path'.

(** [os.path.abspath(path)], with [os.getcwd()] passed in. *)
Definition abspath (cwd path : string) : string :=
  if isabs path then normpath path else normpath (join cwd path).

(** Length of the common prefix of two component lists. *)
Fixpoint common (l1 l2 : list string) : nat :=
  match l1, l2 with
  | a :: l1', b :: l2' => if String.eqb a b then S (common l1' l2') else 0
  | _, _ => 0
  end.

Definition nonempty_comps (p : string) : list string :=
  filter (fun x => x ≠ "") (Str.split sep p).

(** [os.path.relpath(path, start)] *)
Definition relpath (cwd path start : string) : string :=
  let start_list := nonempty_comps (abspath cwd start) in
  let path_list := nonempty_comps (abspath cwd path) in
  let i := common start_list path_list in
  let rel_list := replicate (length start_list - i) ".." ++ drop i path_list in
  match rel_list with
  | [] => "."
  | _ => Str.join "/" rel_list
  end.

End PosixPath.

(** ** The filesystem *)

Local Set Warnings "-register-all".

(** A regular file carries its modification time (the metadata that
    [shutil.copy2] preserves) and its content. *)
Inductive node :=
  | File (mtime : Z) (data : string)
  | Dir (entries : list (string * node)).

(** The process environment: the tree below [/], [os.getcwd()],
    [os.environ], the name of the current user and the password database
    (user name to home directory) that [os.path.expanduser] consults. *)
Record world := World {
  tree : list (string * node);
  cwd : string;
  environ : list (string * string);
  user : string;
  passwd : list (string * string)
}.

Module FS.

Import Str.

(** A canonical location: the names from [/] down, without [.] or [..]. *)
Definition key := list string.

Fixpoint assoc {A} (c : string) (es : list (string * A)) : option A :=
  match es with
  | [] => None
  | (c', n) :: es' => if String.eqb c c' then Some n else assoc c es'
  end.

(** Replace the entry called [c], or add it after the existing ones. *)
Fixpoint set_entry (c : string) (x : node) (es : list (string * node))
    : list (string * node) :=
  match es with
  | [] => [(c, x)]
  | (c', n) :: es' =>
      if String.eqb c c' then (c, x) :: es' else (c', n) :: set_entry c x es'
  end.

Fixpoint get (n : node) (k : key) : option node :=
  match k with
  | [] => Some n
  | c :: k' =>
      match n with
      | Dir es => match assoc c es with
                  | Some ch => get ch k'
                  | None => None
                  end
      | File _ _ => None
      end
  end.

(** Store [x] at [k]; every proper prefix of [k] has to be a directory. *)
Fixpoint put (n : node) (k : key) (x : node) : option node :=
  match k with
  | [] => Some x
  | c :: k' =>
      match n with
      | Dir es =>
          match k' with
          | [] => Some (Dir (set_entry c x es))
          | _ :: _ =>
              match assoc c es with
              | Some ch =>
                  match put ch k' x with
                  | Some ch' => Some (Dir (set_entry c ch' es))
                  | None => None
                  end
              | None => None
              end
          end
      | File _ _ => None
      end
  end.

Definition not_dir (o : option node) : Prop := ∀ es, o ≠ Some (Dir es).

Definition is_dir_at (r : node) (k : key) : bool :=
  match get r k with
  | Some (Dir _) => true
  | _ => false
  end.

(** Kernel path walk: every component is looked up from a directory;
    [..] at the root stays at the root.  The last name need not exist. *)
Fixpoint walk_comps (r : node) (cur : key) (comps : list string)
    : option key :=
  match comps with
  | [] => Some cur
  | c :: rest =>
      if is_dir_at r cur then
        if String.eqb c "" || String.eqb c "." then walk_comps r cur rest
        else if String.eqb c ".." then walk_comps r (removelast cur) rest
        else walk_comps r (cur ++ [c]) rest
      else None
  end.

Definition root (w : world) : node := Dir (tree w).

Definition comps_of (w : world) (p : string) : list string :=
  if PosixPath.isabs p then Str.split sep p
  else Str.split sep (cwd w) ++ Str.split sep p.

(** Where the path [p] leads; the empty path leads nowhere (ENOENT). *)
Definition locate (w : world) (p : string) : option key :=
  if String.eqb p "" then None
  else walk_comps (root w) [] (comps_of w p).

Definition stat (w : world) (p : string) : option node :=
  match locate w p with
  | Some k => get (root w) k
  | None => None
  end.

(** [os.path.isfile], [os.path.isdir], [os.path.lexists] *)
Definition isfile (w : world) (p : string) : bool :=
  match stat w p with Some (File _ _) => true | _ => false end.

Definition isdir (w : world) (p : string) : bool :=
  match stat w p with Some (Dir _) => true | _ => false end.

Definition lexists (w : world) (p : string) : bool :=
  match stat w p with Some _ => true | None => false end.

(** The names [os.scandir(p)] yields, in its order; none on error. *)
Definition scandir (w : world) (p : string) : list string :=
  match stat w p with
  | Some (Dir es) => map fst es
  | _ => []
  end.

(** [open(p, 'r', errors='ignore').readlines()] up to the read:
    [None] when the open raises. *)
Definition read_text (w : world) (p : string) : option string :=
  match stat w p with
  | Some (File _ d) => Some d
  | _ => None
  end.

Definition LF : ascii := "010"%char.
Definition CR : ascii := "013"%char.

(** [f.readlines()] in text mode: lines keep their terminator, and
    universal newlines turn CR and CR LF into LF. *)
Fixpoint readlines (s : string) : list string :=
  match s with
  | EmptyString => []
  | String a s' =>
      if Ascii.eqb a LF then String LF "" :: readlines s'
      else if Ascii.eqb a CR then
        match s' with
        | String b s'' =>
            if Ascii.eqb b LF then String LF "" :: readlines s''
            else String LF "" :: readlines s'
        | EmptyString => [String LF ""]
        end
      else match readlines s' with
           | [] => [String a ""]
           | l :: ls => String a l :: ls
           end
  end.

(** *** [os.walk] *)

Definition is_dir_node (n : node) : bool :=
  match n with Dir _ => true | File _ _ => false end.

Definition subdirs (es : list (string * node)) : list string :=
  map fst (filter (fun e => is_dir_node e.2 = true) es).

Definition nondirs (es : list (string * node)) : list string :=
  map fst (filter (fun e => is_dir_node e.2 = false) es).

(** Top-down walk: the triple of a directory, then the walks of its
    sub-directories in enumeration order. *)
Fixpoint walk_node (top : string) (n : node)
    : list (string * list string * list string) :=
  match n with
  | File _ _ => []
  | Dir es =>
      (top, subdirs es, nondirs es)
      :: flat_map (fun e => let '(c, ch) := e in
                            match ch with
                            | Dir _ => walk_node (PosixPath.join top c) ch
                            | File _ _ => []
                            end) es
  end.

(** [os.walk(top)]; a [top] that cannot be scanned yields nothing. *)
Definition walk (w : world) (top : string)
    : list (string * list string * list string) :=
  match stat w top with
  | Some n => walk_node top n
  | None => []
  end.

(** *** [fnmatch] *)

Definition star : ascii := "*"%char.
Definition qmark : ascii := "?"%char.
Definition lbracket : ascii := "["%char.
Definition rbracket : ascii := "]"%char.
Definition bang : ascii := "!"%char.
Definition hyphen : ascii := "-"%char.

(** [glob.has_magic]: one of [*], [?] and [[] occurs. *)
Definition has_magic (s : string) : bool :=
  mem_char star s || mem_char qmark s || mem_char lbracket s.

(** [s[:-1]] and [s[-1]] *)
Fixpoint chop (s : string) : string :=
  match s with
  | EmptyString => ""
  | String a s' =>
      match s' with
      | EmptyString => ""
      | String _ _ => String a (chop s')
      end
  end.

Fixpoint last_char (s : string) : option ascii :=
  match s with
  | EmptyString => None
  | String a s' =>
      match s' with
      | EmptyString => Some a
      | String _ _ => last_char s'
      end
  end.

(** What stands between the brackets of a character set of the regular
    expression that [fnmatch.translate] writes: a character (escaped
    where the set syntax asks for it), or the hyphen that joins two
    chunks into a range. *)
Inductive set_item :=
  | Chr (c : ascii)
  | Join.

(** The pieces of that regular expression: [.*], [.], an escaped
    character, [(?!)] and a character set. *)
Inductive piece :=
  | Star
  | AnyChar
  | Lit (c : ascii)
  | Never
  | Class (negated : bool) (items : list set_item).

(** The loop that cuts [stuff] at its range hyphens: [chunk] is
    [pat[i:...]] so far, and the next [skip] characters are before [k],
    where no hyphen is looked for. *)
Fixpoint chunks_from (skip : nat) (chunk : string) (s : string)
    : list string :=
  match s with
  | EmptyString => [chunk]
  | String a s' =>
      match skip with
      | S n => chunks_from n (chunk +:+ String a "") s'
      | O =>
          if Ascii.eqb a hyphen then chunk :: chunks_from 2 "" s'
          else chunks_from 0 (chunk +:+ String a "") s'
      end
  end.

(** The chunks of a [stuff] with a hyphen; an empty last chunk gives
    its hyphen to the chunk before. *)
Definition chunks_of (stuff : string) : list string :=
  let chunks := chunks_from (if startswith stuff "!" then 2 else 1) "" stuff in
  match reverse chunks with
  | EmptyString :: prev :: before =>
      reverse ((prev +:+ String hyphen "") :: before)
  | _ => chunks
  end.

(** One round of "remove empty ranges", for the chunk [c] in front of
    the chunks already treated. *)
Definition merge_step (c : string) (treated : list string) : list string :=
  match treated with
  | [] => [c]
  | t :: ts =>
      match last_char c, t with
      | Some x, String y t' =>
          if (nat_of_ascii y <? nat_of_ascii x)%nat
          then (chop c +:+ t') :: ts
          else c :: treated
      | _, _ => c :: treated
      end
  end.

Definition chars (s : string) : list set_item :=
  map Chr (list_ascii_of_string s).

(** ['-'.join(chunks)] *)
Definition join_chunks (chunks : list string) : list set_item :=
  match chunks with
  | [] => []
  | c :: cs => chars c ++ flat_map (fun d => Join :: chars d) cs
  end.

(** The piece for [[stuff]]. *)
Definition set_piece (stuff : string) : piece :=
  let items :=
    if mem_char hyphen stuff
    then join_chunks (foldr merge_step [] (chunks_of stuff))
    else chars stuff in
  match items with
  | [] => Never
  | Chr c :: items' =>
      if Ascii.eqb c bang then
        match items' with
        | [] => AnyChar
        | _ :: _ => Class true items'
        end
      else Class false items
  | Join :: _ => Class false items
  end.

(** [fnmatch.translate(pat)].  [bracket] looks for the end of a set
    that starts after [[]: [phase] is 0 at its first character, 1 after
    a leading [!], and 2 from where a [[]]] closes the set. *)
Fixpoint translate (pat : string) : list piece :=
  match pat with
  | EmptyString => []
  | String c rest =>
      if Ascii.eqb c star then
        match translate rest with
        | Star :: res => Star :: res
        | res => Star :: res
        end
      else if Ascii.eqb c qmark then AnyChar :: translate rest
      else if Ascii.eqb c lbracket then
        match bracket 0 "" rest with
        | Some res => res
        | None => Lit lbracket :: translate rest
        end
      else Lit c :: translate rest
  end
with bracket (phase : nat) (stuff : string) (s : string) {struct s}
    : option (list piece) :=
  match s with
  | EmptyString => None
  | String a s' =>
      if Ascii.eqb a rbracket && Nat.eqb phase 2
      then Some (set_piece stuff :: translate s')
      else bracket (if Nat.eqb phase 0 && Ascii.eqb a bang then 1 else 2)
                   (stuff +:+ String a "") s'
  end.

Definition item_char (i : set_item) : ascii :=
  match i with
  | Chr c => c
  | Join => hyphen
  end.

(** The ranges of a character set, read from left to right; a single
    character is the range from itself to itself. *)
Fixpoint ranges (items : list set_item) : list (ascii * ascii) :=
  match items with
  | [] => []
  | i :: rest =>
      match rest with
      | Join :: that :: rest' => (item_char i, item_char that) :: ranges rest'
      | _ => (item_char i, item_char i) :: ranges rest
      end
  end.

Definition in_range (a : ascii) (r : ascii * ascii) : bool :=
  (nat_of_ascii r.1 <=? nat_of_ascii a)%nat
  && (nat_of_ascii a <=? nat_of_ascii r.2)%nat.

(** A piece other than [.*] against one character. *)
Definition accepts (p : piece) (a : ascii) : bool :=
  match p with
  | Star | AnyChar => true
  | Lit c => Ascii.eqb c a
  | Never => false
  | Class negated items => xorb negated (existsb (in_range a) (ranges items))
  end.

(** The whole of [s] against the pieces, as [re.match] on the
    expression that ends in [\Z] decides it.  (Pieces other than [.*]
    take exactly one character each, so the minimal, atomic groups
    that [translate] writes for the inner [.*] accept the same
    names.) *)
Fixpoint matches (pieces : list piece) (s : string) : bool :=
  match pieces with
  | [] => String.eqb s ""
  | Star :: pieces' =>
      (fix any (s : string) : bool :=
         matches pieces' s ||
         match s with
         | EmptyString => false
         | String _ s' => any s'
         end) s
  | p :: pieces' =>
      match s with
      | EmptyString => false
      | String a s' => accepts p a && matches pieces' s'
      end
  end.

(** [fnmatch.fnmatchcase(name, pat)] *)
Definition fnmatchcase (name pat : string) : bool :=
  matches (translate pat) name.

(** [fnmatch.filter(names, pat)] on POSIX *)
Definition fnmatch_filter (names : list string) (pat : string) : list string :=
  filter (fun x => fnmatchcase x pat = true) names.

(** *** [glob.glob] *)

Definition ishidden (s : string) : bool := startswith s ".".

(** [glob._listdir]: the names in [dirname], or in the working
    directory for an empty [dirname]; directories only with
    [dironly]; none on error. *)
Definition listdir (w : world) (dirname : string) (dironly : bool)
    : list string :=
  let arg := if String.eqb dirname "" then "." else dirname in
  if dironly then
    match stat w arg with
    | Some (Dir es) => subdirs es
    | _ => []
    end
  else scandir w arg.

(** [glob._glob1]: the entries of [dirname] the pattern matches; hidden
    entries only for a pattern that itself starts with a dot. *)
Definition glob1 (w : world) (dirname pattern : string) (dironly : bool)
    : list string :=
  let names := listdir w dirname dironly in
  let names :=
    if negb (ishidden pattern) then filter (fun x => ishidden x = false) names
    else names in
  fnmatch_filter names pattern.

(** [glob._glob0]: a literal [basename] in [dirname]. *)
Definition glob0 (w : world) (dirname basename : string) (dironly : bool)
    : list string :=
  if negb (String.eqb basename "") then
    if lexists w (PosixPath.join dirname basename) then [basename] else []
  else
    if isdir w dirname then [basename] else [].

(** [glob._iglob], not recursive ([**] is an ordinary pattern).  The
    call recurses on [dirname], which is shorter than [pathname];
    [fuel] bounds the depth. *)
Fixpoint iglob (fuel : nat) (w : world) (pathname : string) (dironly : bool)
    : list string :=
  match fuel with
  | O => []
  | S fuel' =>
      let '(dirname, basename) := PosixPath.split pathname in
      if negb (has_magic pathname) then
        if negb (String.eqb basename "") then
          if lexists w pathname then [pathname] else []
        else
          if isdir w dirname then [pathname] else []
      else if String.eqb dirname "" then glob1 w "" basename dironly
      else
        let dirs :=
          if negb (String.eqb dirname pathname) && has_magic dirname
          then iglob fuel' w dirname true
          else [dirname] in
        let glob_in_dir := if has_magic basename then glob1 else glob0 in
        dirname ← dirs;
        name ← glob_in_dir w dirname basename dironly;
        [PosixPath.join dirname name]
  end.

(** [glob.glob(pathname)] *)
Definition glob (w : world) (pathname : string) : list string :=
  iglob (S (String.length pathname)) w pathname false.

(** *** [os.makedirs] and [shutil.copy2] *)

(** [os.makedirs(p, exist_ok=True)] walks [p] and creates what is
    missing; a regular file in the way raises. *)
Fixpoint makedirs_from (r : node) (cur : key) (comps : list string)
    : option node :=
  match comps with
  | [] => Some r
  | c :: rest =>
      if String.eqb c "" || String.eqb c "." then
        if is_dir_at r cur then makedirs_from r cur rest else None
      else if String.eqb c ".." then
        if is_dir_at r cur then makedirs_from r (removelast cur) rest
        else None
      else
        match get r (cur ++ [c]) with
        | Some (Dir _) => makedirs_from r (cur ++ [c]) rest
        | Some (File _ _) => None
        | None =>
            match put r (cur ++ [c]) (Dir []) with
            | Some r' => makedirs_from r' (cur ++ [c]) rest
            | None => None
            end
        end
  end.

Definition with_root (w : world) (r : node) : world :=
  match r with
  | Dir es => World es (cwd w) (environ w) (user w) (passwd w)
  | File _ _ => w
  end.

(** [None] stands for the [OSError] the call raises. *)
Definition makedirs (w : world) (p : string) : option world :=
  if String.eqb p "" then None
  else match makedirs_from (root w) [] (comps_of w p) with
       | Some r => Some (with_root w r)
       | None => None
       end.

(** [os.path.samefile], with a failing [stat] read as "different", the
    way [shutil._samefile] does. *)
Definition samefile (w : world) (p q : string) : bool :=
  match locate w p, locate w q with
  | Some k1, Some k2 =>
      bool_decide (k1 = k2) &&
      match get (root w) k1 with Some _ => true | None => false end
  | _, _ => false
  end.

(** [shutil.copy2(src, dst)]: content and modification time of [src]
    written to [dst], or to [dst/basename(src)] when [dst] is a
    directory.  [None] stands for the [OSError] the call raises. *)
Definition copy2 (w : world) (src dst : string) : option world :=
  let dst :=
    if isdir w dst then PosixPath.join dst (PosixPath.basename src)
    else dst in
  if samefile w src dst then None
  else
    match stat w src with
    | Some (File m d) =>
        match locate w dst with
        | Some (c :: k) =>
            match get (root w) (c :: k) with
            | Some (Dir _) => None
            | _ =>
                match put (root w) (c :: k) (File m d) with
                | Some r => Some (with_root w r)
                | None => None
                end
            end
        | _ => None
        end
    | _ => None
    end.

(** [os.environ.get(x)] *)
Definition getenv (w : world) (x : string) : option string :=
  assoc x (environ w).

(** [(s[:i], s[i:])] with [i] the index of the first [c], or [len(s)]. *)
Fixpoint lpartition (c : ascii) (s : string) : string * string :=
  match s with
  | EmptyString => ("", "")
  | String a s' =>
      if Ascii.eqb a c then ("", s)
      else let '(h, t) := lpartition c s' in (String a h, t)
  end.

(** [os.path.expanduser(path)] *)
Definition expanduser (w : world) (path : string) : string :=
  match path with
  | String "~" rest =>
      let '(uname, suffix) := lpartition sep rest in
      let userhome :=
        if String.eqb uname "" then
          match getenv w "HOME" with
          | Some h => Some h
          | None => assoc (user w) (passwd w)
          end
        else assoc uname (passwd w) in
      match userhome with
      | None => path
      | Some h =>
          let r := rstrip_char sep h +:+ suffix in
          if String.eqb r "" then "/" else r
      end
  | _ => path
  end.

End FS.

(** ** The program *)

(** A cheatpath: one dict of the list [get_cheatpaths] returns,
    [{'name': str, 'path': str, 'readonly': bool, 'tags': list}].  The
    [readonly] key may be missing ([None]). *)
Record layer := Layer {
  name : string;
  path : string;
  readonly : option bool;
  tags : list string
}.

Global Instance layer_eq_dec : EqDecision layer.
Proof. solve_decision. Defined.

(** The parsed configuration file. *)
Record config := Config {
  cheatpaths : option (list layer);
  editor : option string;
  viewer : option string
}.

(** What the process does besides changing files. *)
Inductive event :=
  | Stdout (line : string)
  | Call (command : string).

(** How a command ends: it returns, it calls [sys.exit], or an [OSError]
    escapes (the state a failed call leaves behind is not modelled). *)
Inductive outcome :=
  | Returned (w : world) (log : list event)
  | Exited (status : Z) (w : world) (log : list event)
  | Raised (log : list event).

(** A search hit: sheet name, 1-based line number, stripped line. *)
Record hit := Hit {
  hit_sheet : string;
  hit_line : nat;
  hit_text : string
}.

Module Cheat.

Import Str FS.

(** *** [get_cheatpaths] *)

Definition local_cheat (w : world) : string :=
  PosixPath.join (cwd w) ".cheat".

Definition local_layer (w : world) : layer :=
  Layer "local" (local_cheat w) (Some false) ["local"].

Definition expand_entry (w : world) (cp : layer) : layer :=
  Layer (name cp) (expanduser w (path cp)) (readonly cp) (tags cp).

Definition get_cheatpaths (w : world) (config : config) : list layer :=
  let paths :=
    match cheatpaths config with
    | Some cps => map (expand_entry w) cps
    | None => []
    end in
  if isdir w (local_cheat w) then paths ++ [local_layer w] else paths.

(** *** [find_cheatsheet] *)

(** The security check of the loop body: [True] when the layer is
    kept. *)
Definition inside (w : world) (base_dir target_path : string) : bool :=
  startswith (PosixPath.abspath (cwd w) target_path)
             (PosixPath.abspath (cwd w) base_dir).

(** One iteration of the loop: the path this layer answers with. *)
Definition probe (w : world) (cheatname : string) (path_entry : layer)
    : option string :=
  let base_dir := path path_entry in
  let target_path := PosixPath.join base_dir cheatname in
  if negb (inside w base_dir target_path) then None
  else if isfile w target_path then Some target_path
  else match glob w (target_path +:+ ".*") with
       | m :: _ => Some m
       | [] => None
       end.

Fixpoint find_in (w : world) (cheatname : string) (entries : list layer)
    : option (layer * string) :=
  match entries with
  | [] => None
  | path_entry :: rest =>
      match probe w cheatname path_entry with
      | Some full_path => Some (path_entry, full_path)
      | None => find_in w cheatname rest
      end
  end.

Definition find_cheatsheet (w : world) (cheatname : string)
    (paths : list layer) : option (layer * string) :=
  find_in w cheatname (reverse paths).

(** *** [list_cheatsheets] *)

(** [filter_path_name and entry.get('name') != filter_path_name] *)
Definition filtered_out (filter_path_name : option string) (entry : layer)
    : bool :=
  match filter_path_name with
  | Some f => negb (String.eqb f "") && negb (String.eqb (name entry) f)
  | None => false
  end.

(** The sheet name of the file [file] found in [root] under [base_dir]. *)
Definition sheet_name (w : world) (base_dir root file : string) : string :=
  let abs_path := PosixPath.join root file in
  let rel_path := PosixPath.relpath (cwd w) abs_path base_dir in
  fst (PosixPath.splitext rel_path).

(** The files the two walking loops visit in [base_dir], hidden file
    names skipped: each with the directory it was found in. *)
Definition visible_files (w : world) (base_dir : string)
    : list (string * string) :=
  '(root, _, files) ← walk w base_dir;
  file ← files;
  if startswith file "." then [] else [(root, file)].

(** The values passed to [sheets.add], in loop order. *)
Definition added (w : world) (paths : list layer)
    (filter_path_name : option string) : list string :=
  entry ← paths;
  if filtered_out filter_path_name entry then []
  else
    let base_dir := path entry in
    if negb (isdir w base_dir) then []
    else
      '(root, file) ← visible_files w base_dir;
      [sheet_name w base_dir root file].

(** The lines printed. *)
Definition list_cheatsheets (w : world) (paths : list layer)
    (filter_path_name : option string) : list string :=
  let sheets : gset string := list_to_set (added w paths filter_path_name) in
  merge_sort String.le (elements sheets).

(** *** [search_cheatsheets] *)

(** [enumerate(lines)] *)
Definition enumerate {A} (l : list A) : list (nat * A) := imap pair l.

(** The hits of one file. *)
Definition file_hits (term sheet : string) (lines : list string) : list hit :=
  '(i, line) ← enumerate lines;
  if contains (lower line) (lower term) then [Hit sheet (i + 1) (strip line)]
  else [].

Definition search_hits (w : world) (term : string) (paths : list layer)
    : list hit :=
  entry ← paths;
  let base_dir := path entry in
  if negb (isdir w base_dir) then []
  else
    '(root, file) ← visible_files w base_dir;
    let abs_path := PosixPath.join root file in
    match read_text w abs_path with
    | Some text =>
        file_hits term (sheet_name w base_dir root file) (readlines text)
    | None => []
    end.

Definition decimal (n : nat) : string := pretty n.

(** [f"{sheet_name}:{i+1}: {line.strip()}"] *)
Definition format_hit (h : hit) : string :=
  hit_sheet h +:+ ":" +:+ decimal (hit_line h) +:+ ": " +:+ hit_text h.

(** The lines printed and the value returned. *)
Definition search_cheatsheets (w : world) (term : string)
    (paths : list layer) : list string * bool :=
  let hits := search_hits w term paths in
  (map format_hit hits, bool_decide (hits ≠ [])).

(** *** [edit_cheatsheet] *)

(** [entry.get('readonly', False)] *)
Definition is_readonly (entry : layer) : bool :=
  match readonly entry with
  | Some b => b
  | None => false
  end.

(** The loop that looks for the target of a copy or of a new sheet:
    the first entry, in list order, that is not read-only. *)
Fixpoint first_writable (paths : list layer) : option layer :=
  match paths with
  | [] => None
  | entry :: rest =>
      if negb (is_readonly entry) then Some entry else first_writable rest
  end.

Definition the_editor (w : world) (config : config) : string :=
  match editor config with
  | Some e => e
  | None => match getenv w "EDITOR" with
            | Some e => e
            | None => "vi"
            end
  end.

Definition launch (prog file : string) : event :=
  Call (prog +:+ " '" +:+ file +:+ "'").

(** Where the copy of a read-only sheet goes. *)
Definition copy_target (target_entry : layer) (cheatname full_path : string)
    : string :=
  let new_full_path := PosixPath.join (path target_entry) cheatname in
  let ext := snd (PosixPath.splitext full_path) in
  if negb (String.eqb ext "") && negb (endswith new_full_path ext)
  then new_full_path +:+ ext
  else new_full_path.

Definition no_writable : event :=
  Stdout "Error: No writable cheatpath found.".

Definition edit_cheatsheet (w : world) (cheatname : string)
    (paths : list layer) (config : config) : outcome :=
  let editor := the_editor w config in
  match find_cheatsheet w cheatname paths with
  | Some (path_entry, full_path) =>
      if negb (is_readonly path_entry) then
        Returned w [launch editor full_path]
      else
        let log :=
          [Stdout ("Path '" +:+ name path_entry
                   +:+ "' is read-only. Copying to personal path...")] in
        match first_writable paths with
        | None => Exited 1 w (log ++ [no_writable])
        | Some target_entry =>
            let new_full_path :=
              copy_target target_entry cheatname full_path in
            match makedirs w (PosixPath.dirname new_full_path) with
            | None => Raised log
            | Some w1 =>
                match copy2 w1 full_path new_full_path with
                | None => Raised log
                | Some w2 =>
                    Returned w2
                      (log ++ [Stdout ("Copied to " +:+ new_full_path);
                               launch editor new_full_path])
                end
            end
        end
  | None =>
      match first_writable paths with
      | None => Exited 1 w [no_writable]
      | Some target_entry =>
          let new_full_path := PosixPath.join (path target_entry) cheatname in
          match makedirs w (PosixPath.dirname new_full_path) with
          | None => Raised []
          | Some w1 => Returned w1 [launch editor new_full_path]
          end
      end
  end.

End Cheat.


(** ** The command line: [view_cheatsheet], [load_config], [main] *)

(** The namespace [argparse] returns.  [arg_conf] is [None] when
    [--conf] is not given (the default then applies). *)
Record args := Args {
  arg_cheatname : option string;
  arg_edit : bool;
  arg_list : bool;
  arg_path : option string;
  arg_search : option string;
  arg_directories : bool;
  arg_conf : option string
}.

(** What [load_config] gives back: the configuration, or the way the
    process ended. *)
Inductive loaded :=
  | Loaded (c : config)
  | Stopped (o : outcome).

(** How [main] ends: with what a command did, or with the help text of
    [parser.print_help()]. *)
Inductive finished :=
  | Done (o : outcome)
  | Help.

Module Cli.

Import Str FS Cheat.

(** [config.get('viewer', os.environ.get('PAGER', 'less'))] *)
Definition the_viewer (w : world) (config : config) : string :=
  match viewer config with
  | Some v => v
  | None => match getenv w "PAGER" with
            | Some v => v
            | None => "less"
            end
  end.

(** [subprocess.call] with [shell=True] returns the status of the
    shell; the [except] branch, for a shell that cannot be started, is
    left out. *)
Definition view_cheatsheet (w : world) (cheatname : string)
    (paths : list layer) (config : config) : outcome :=
  match find_cheatsheet w cheatname paths with
  | None =>
      Exited 1 w [Stdout ("No cheatsheet found for '" +:+ cheatname +:+ "'.")]
  | Some (path_entry, full_path) =>
      Returned w [launch (the_viewer w config) full_path]
  end.

(** [load_config]; [safe_load] stands for [yaml.safe_load] on the text
    of the file: the message of the [YAMLError], or the configuration.
    A path that exists and cannot be opened (a directory) raises. *)
Definition load_config (safe_load : string → string + config)
    (w : world) (config_path : string) : loaded :=
  if negb (lexists w config_path) then
    Stopped (Exited 1 w
               [Stdout ("Configuration file not found: " +:+ config_path)])
  else
    match read_text w config_path with
    | None => Stopped (Raised [])
    | Some text =>
        match safe_load text with
        | inl e =>
            Stopped (Exited 1 w [Stdout ("Error parsing config file: " +:+ e)])
        | inr config => Loaded config
        end
    end.

(** Truth value of an optional string argument: set and not empty. *)
Definition truthy (o : option string) : bool :=
  match o with
  | Some s => negb (String.eqb s "")
  | None => false
  end.

(** [str(b)] for a [bool]. *)
Definition python_bool (b : bool) : string := if b then "True" else "False".

(** [f"{p['name']}: {p['path']} (readonly: {p.get('readonly', False)})"] *)
Definition directory_line (p : layer) : string :=
  name p +:+ ": " +:+ path p +:+ " (readonly: "
  +:+ python_bool (is_readonly p) +:+ ")".

(** [os.path.expanduser("~/.config/cheat/conf.yml")] *)
Definition default_conf (w : world) : string :=
  expanduser w "~/.config/cheat/conf.yml".

(** The configuration file [main] reads. *)
Definition config_path_of (w : world) (a : args) : string :=
  let config_path :=
    match arg_conf a with
    | Some c => c
    | None => default_conf w
    end in
  if String.eqb config_path (default_conf w) && negb (lexists w config_path)
  then if lexists w "conf.yml" then "conf.yml" else config_path
  else config_path.

Definition main (safe_load : string → string + config) (w : world)
    (a : args) : finished :=
  match load_config safe_load w (config_path_of w a) with
  | Stopped o => Done o
  | Loaded config =>
      let paths := get_cheatpaths w config in
      if arg_directories a then
        Done (Returned w (map (λ p, Stdout (directory_line p)) paths))
      else if arg_list a then
        Done (Returned w (map Stdout (list_cheatsheets w paths (arg_path a))))
      else if truthy (arg_search a) then
        Done (Returned w
                (map Stdout
                   (search_cheatsheets w (default "" (arg_search a)) paths).1))
      else if arg_edit a then
        if negb (truthy (arg_cheatname a)) then
          Done (Exited 1 w [Stdout "Error: Please specify a cheatsheet to edit."])
        else
          Done (edit_cheatsheet w (default "" (arg_cheatname a)) paths config)
      else if truthy (arg_cheatname a) then
        Done (view_cheatsheet w (default "" (arg_cheatname a)) paths config)
      else Help
  end.

End Cli.

(** ** Vocabulary of the properties *)

Module Spec.

Import Str FS Cheat.

(** The layer [entry] has a sheet for [cheatname]: the candidate passes
    the security check and is a regular file, or has matches with an
    extension. *)
Definition has_sheet (w : world) (entry : layer) (cheatname : string) : Prop :=
  let target_path := PosixPath.join (path entry) cheatname in
  inside w (path entry) target_path = true
  ∧ (isfile w target_path = true ∨ glob w (target_path +:+ ".*") ≠ []).

(** The physical path [p] lies in the directory [base_dir] or below. *)
Definition beneath (w : world) (base_dir p : string) : Prop :=
  ∃ kb kp, locate w base_dir = Some kb ∧ locate w p = Some kp
           ∧ kb `prefix_of` kp.

(** No segment of a relative path is hidden. *)
Definition no_hidden_segment (s : string) : Prop :=
  Forall (λ seg, ishidden seg = false) (Str.split sep s).

Definition is_stdout (e : event) : Prop :=
  match e with Stdout _ => True | Call _ => False end.

(** The file [file] is listed in the directory [root] by the walk of
    [base_dir]. *)
Definition walked (w : world) (base_dir root file : string) : Prop :=
  ∃ dirs files, (root, dirs, files) ∈ walk w base_dir ∧ file ∈ files.

(** [n] separators. *)
Fixpoint seps (n : nat) : string :=
  match n with
  | O => ""
  | S n => String sep (seps n)
  end.

(** A name a directory entry can have: not empty, not [.] or [..], and
    without [/]. *)
Definition valid_name (c : string) : bool :=
  negb (String.eqb c "") && negb (String.eqb c ".")
  && negb (String.eqb c "..") && negb (mem_char sep c).

(** A tree a filesystem can hold: in every directory the names are
    valid and distinct. *)
Fixpoint well_formed (n : node) : bool :=
  match n with
  | File _ _ => true
  | Dir es =>
      (fix entries (es : list (string * node)) : bool :=
         match es with
         | [] => true
         | (c, ch) :: es' =>
             valid_name c && negb (existsb (String.eqb c) (map fst es'))
             && well_formed ch && entries es'
         end) es
  end.


(** A file name without its last dot and what follows that dot. *)
Fixpoint stem (file : string) : string :=
  match file with
  | EmptyString => ""
  | String a s =>
      if mem_char extsep s then String a (stem s)
      else if Ascii.eqb a extsep then ""
      else file
  end.

(** The logical name of the file called [file] in the sub-directory
    [rel] of a layer directory: its path relative to the layer
    directory, one extension removed. *)
Definition logical_name (rel : list string) (file : string) : string :=
  String.concat "/" (rel ++ [stem file]).

(** The layer [entry] holds a sheet with the logical name [s]: a
    regular file below its directory whose own name is not hidden. *)
Definition holds_sheet (w : world) (entry : layer) (s : string) : Prop :=
  ∃ kb rel file m d,
    locate w (path entry) = Some kb
    ∧ get (root w) (kb ++ rel ++ [file]) = Some (File m d)
    ∧ ishidden file = false
    ∧ s = logical_name rel file.

(** The same letter, upper or lower case, or the same character. *)
Definition same_letter (a b : ascii) : Prop :=
  let x := nat_of_ascii a in
  let y := nat_of_ascii b in
  x = y ∨ ((65 ≤ x ≤ 90)%nat ∧ y = (x + 32)%nat)
  ∨ ((65 ≤ y ≤ 90)%nat ∧ x = (y + 32)%nat).

Fixpoint same_text (u v : string) : Prop :=
  match u, v with
  | EmptyString, EmptyString => True
  | String a u', String b v' => same_letter a b ∧ same_text u' v'
  | _, _ => False
  end.

(** [term] occurs in [line], letter case aside. *)
Definition contains_ci (line term : string) : Prop :=
  ∃ before found after,
    line = before +:+ found +:+ after ∧ same_text found term.

(** [out] is the line of a hit for [term]: a line, of a sheet held by a
    layer of [paths], in which [term] occurs letter case aside, printed
    with the logical name of the sheet, the number of the line counted
    from 1 and the line without the white space around it. *)
Definition search_line (w : world) (term : string) (paths : list layer)
    (out : string) : Prop :=
  ∃ e kb rel file m text i line,
    e ∈ paths
    ∧ locate w (path e) = Some kb
    ∧ get (root w) (kb ++ rel ++ [file]) = Some (File m text)
    ∧ ishidden file = false
    ∧ readlines text !! i = Some line
    ∧ contains_ci line term
    ∧ out = logical_name rel file +:+ ":" +:+ decimal (i + 1) +:+ ": "
            +:+ strip line.

(** The home directory [~] stands for: [$HOME], and without it the
    entry of the current user in the password database. *)
Definition home_of (w : world) : option string :=
  match getenv w "HOME" with
  | Some h => Some h
  | None => assoc (user w) (passwd w)
  end.

(** [rest] below the home directory [h]. *)
Definition below_home (h rest : string) : string :=
  let r := rstrip_char sep h +:+ rest in
  if String.eqb r "" then "/" else r.

(** What a configured path becomes: [~] and [~user] at its start, up
    to the first [/], are replaced by the home directory when one is
    known; every other path is kept. *)
Inductive expands (w : world) : string → string → Prop :=
  | expands_plain p :
      startswith p "~" = false → expands w p p
  | expands_home rest h :
      rest = "" ∨ startswith rest "/" = true →
      home_of w = Some h →
      expands w (String "~" rest) (below_home h rest)
  | expands_homeless rest :
      rest = "" ∨ startswith rest "/" = true →
      home_of w = None →
      expands w (String "~" rest) (String "~" rest)
  | expands_user u rest h :
      u ≠ "" → mem_char sep u = false →
      rest = "" ∨ startswith rest "/" = true →
      assoc u (passwd w) = Some h →
      expands w (String "~" (u +:+ rest)) (below_home h rest)
  | expands_unknown u rest :
      u ≠ "" → mem_char sep u = false →
      rest = "" ∨ startswith rest "/" = true →
      assoc u (passwd w) = None →
      expands w (String "~" (u +:+ rest)) (String "~" (u +:+ rest)).

End Spec.
Import Str FS Cheat Spec.

(** ** Sample worlds *)

Module Sample.

Definition nl : string := String LF "".

Definition no_config : config := Config None None None.

Definition global_ro : layer := Layer "global" "/g" (Some true) [].
Definition work_rw : layer := Layer "work" "/w" (Some false) [].
Definition personal : layer := Layer "personal" "/p" None [].

(** [/g/tar.md] with the command on line 3, and an empty [/w]. *)
Definition tar_world : world :=
  World [("g", Dir [("tar.md",
                     File 7 ("# tar" +:+ nl +:+ nl
                             +:+ "tar -xzf file.tar.gz" +:+ nl))]);
         ("w", Dir [])]
        "/home/u" [] "u" [].

(** A sheets directory [/s] next to a file [/secret]. *)
Definition secret_world : world :=
  World [("s", Dir [("tar.md", File 1 "tar")]);
         ("secret", File 2 "hunter2")]
        "/" [] "u" [].

Definition sheets_s : layer := Layer "sheets" "/s" (Some false) [].

(** [/g] enumerates [tar.txt] before [tar.md]. *)
Definition two_ext_world : world :=
  World [("g", Dir [("tar.txt", File 1 "text"); ("tar.md", File 2 "markdown")])]
        "/" [] "u" [].

(** [/g/foo.md] read-only, [/w] writable and empty. *)
Definition foo_world : world :=
  World [("g", Dir [("foo.md", File 5 "foo sheet")]); ("w", Dir [])]
        "/" [] "u" [].

(** A sheet next to a hidden directory and a hidden file. *)
Definition hidden_world : world :=
  World [("g", Dir [("tar.md", File 1 ("tar -xzf" +:+ nl));
                    (".git", Dir [("config", File 2 ("xzf = 1" +:+ nl))]);
                    (".secret.md", File 3 ("xzf" +:+ nl))])]
        "/" [] "u" [].

(** The same name in the local [.cheat] directory and in two
    configured layers. *)
Definition layered_world : world :=
  World [("g", Dir [("tar.md", File 1 "global")]);
         ("w", Dir [("tar.txt", File 2 "work")]);
         ("proj", Dir [(".cheat", Dir [("tar", File 3 "local")])])]
        "/proj" [("HOME", "/home/u")] "u" [].

(** [/g/git/branch.md] read-only; [/w] and [/p] writable and empty. *)
Definition branch_world : world :=
  World [("g", Dir [("git", Dir [("branch.md", File 4 "git branch")])]);
         ("w", Dir []); ("p", Dir [])]
        "/" [] "u" [].

(** ... and with the directory [/w/git]. *)
Definition branch_world_git : world :=
  World [("g", Dir [("git", Dir [("branch.md", File 4 "git branch")])]);
         ("w", Dir [("git", Dir [])]); ("p", Dir [])]
        "/" [] "u" [].

(** A layer directory with a bracket in its name next to [/g]; both
    hold [tar.md]. *)
Definition bracket_world : world :=
  World [("g", Dir [("tar.md", File 1 "global")]);
         ("x[1]", Dir [("tar.md", File 2 "local")])]
        "/" [] "u" [].

Definition bracket_layer : layer := Layer "project" "/x[1]" (Some false) [].

End Sample.


(** Vocabulary for the security check. *)
Module Check.

Import Str.

(** The separator [os.path.join] puts after a first part. *)
Definition sep_after (a : string) : string :=
  if String.eqb a "" || endswith a "/" then "" else "/".

(** [initial_slashes] of [normpath], for an absolute path. *)
Definition initial_slashes (p : string) : nat :=
  if startswith p "//" && negb (startswith p "///") then 2%nat else 1%nat.

(** A name without separator that is not the parent directory. *)
Definition plain (cheatname : string) : Prop :=
  mem_char sep cheatname = false ∧ cheatname ≠ "..".

(** The part of a relative path before its last name. *)
Definition before_last (rel : list string) : string :=
  match rel with
  | [] => ""
  | _ :: _ => String.concat "/" rel +:+ "/"
  end.

End Check.

(** Further sample values. *)
Module Sample2.

Definition nowhere : layer := Layer "nowhere" "/nope" None [].

Definition read_only_config : config :=
  Config (Some [Sample.global_ro]) None None.

(** A configuration file at [/etc/cheat.yml] and one in the working
    directory. *)
Definition conf_world : world :=
  World [("g", Dir [("tar.md", File 1 "tar -xzf")]);
         ("etc", Dir [("cheat.yml", File 2 "global")]);
         ("work", Dir [("conf.yml", File 3 "local")])]
        "/work" [("HOME", "/home/u")] "u" [].

(** A stand-in for [yaml.safe_load]. *)
Definition sample_load (text : string) : string + config :=
  if String.eqb text "global" then
    inr (Config (Some [Sample.global_ro]) None None)
  else if String.eqb text "local" then
    inr (Config (Some [Sample.global_ro; Sample.work_rw]) (Some "nano") None)
  else inl "expected a mapping".

Definition no_args : args := Args None false false None None false None.

End Sample2.
(** * Properties *)

(** ** PathSet: [get_cheatpaths] *)

Section PathSet.

Variable w : world.

(** [~/x] with [HOME] set expands to the home directory, trailing
    slashes of [HOME] removed. *)
Lemma expanduser_home h rest :
  getenv w "HOME" = Some h →
  rstrip_char sep h ≠ "" →
  expanduser w (String "~" (String "/" rest)) = rstrip_char sep h +:+ "/" +:+ rest.
Proof.
  intros Hh Hne. unfold expanduser. simpl lpartition. cbn [String.eqb].
  rewrite Hh. unfold String.app at 1.
  destruct (rstrip_char sep h) as [|a s] eqn:E; [done|]. done.
Qed.

Lemma expanduser_plain p : startswith p "~" = false → expanduser w p = p.
Proof.
  destruct p as [|a p]; [done|]. unfold startswith; simpl.
  destruct (ascii_dec "~" a) as [<-|Hne]; [by destruct p|].
  intros _. unfold expanduser.
  destruct a as [[] [] [] [] [] [] [] []]; try done.
Qed.

Lemma lpartition_spec c s :
  s = (lpartition c s).1 +:+ (lpartition c s).2
  ∧ mem_char c (lpartition c s).1 = false
  ∧ ((lpartition c s).2 = ""
     ∨ startswith (lpartition c s).2 (String c "") = true).
Proof.
  induction s as [|a s (IH1 & IH2 & IH3)]; simpl; [by auto|].
  destruct (Ascii.eqb a c) eqn:E; simpl.
  - apply Ascii.eqb_eq in E as ->. split; [done|]. split; [done|]. right.
    unfold startswith. cbn [String.prefix].
    destruct (ascii_dec c c); [by destruct s|done].
  - destruct (lpartition c s) as [h t]; simpl in *.
    split; [by rewrite IH1 at 1|]. split; [by rewrite E|done].
Qed.

Lemma startswith_tilde p :
  startswith p "~" = true → ∃ rest, p = String "~" rest.
Proof.
  destruct p as [|a p]; [done|]. unfold startswith. cbn [String.prefix].
  destruct (ascii_dec "~" a) as [<-|]; [by eauto|done].
Qed.

(** [expanduser] does what [expands] describes. *)
Lemma expanduser_expands p : expands w p (expanduser w p).
Proof.
  destruct (startswith p "~") eqn:Ht.
  - apply startswith_tilde in Ht as [rest ->].
    unfold expanduser.
    destruct (lpartition_spec sep rest) as (Hr & Hu & Hs).
    destruct (lpartition sep rest) as [uname suffix]; simpl in *.
    destruct (String.eqb_spec uname "") as [->|Hne].
    + change ("" +:+ suffix) with suffix in Hr. subst suffix.
      fold (home_of w). destruct (home_of w) as [h|] eqn:Hh.
      * by apply expands_home.
      * by apply expands_homeless.
    + rewrite Hr. destruct (assoc uname (passwd w)) as [h|] eqn:Hh.
      * by apply expands_user.
      * by apply expands_unknown.
  - rewrite expanduser_plain by done. by apply expands_plain.
Qed.

End PathSet.

(** C9. The path set is the configured entries in their order, each
    with its name, flag and tags kept and its path expanded ([~] and
    [~user] replaced by the home directory), followed by the synthetic
    layer [local] (path [.cheat] under the working directory, writable,
    tag [local]) exactly when that directory exists. *)
Theorem get_cheatpaths_shape (w : world) (cfg : config) :
  let configured := default [] (cheatpaths cfg) in
  let dot_cheat := PosixPath.join (cwd w) ".cheat" in
  ∃ expanded,
    get_cheatpaths w cfg =
      expanded
      ++ (if isdir w dot_cheat
          then [Layer "local" dot_cheat (Some false) ["local"]]
          else [])
    ∧ Forall2 (λ cp l, name l = name cp ∧ readonly l = readonly cp
                       ∧ tags l = tags cp ∧ expands w (path cp) (path l))
        configured expanded.
Proof.
  intros configured dot_cheat. exists (map (expand_entry w) configured).
  split.
  - unfold get_cheatpaths, local_cheat, local_layer, configured, dot_cheat.
    destruct (cheatpaths cfg) as [cps|]; simpl;
      destruct (isdir w _); simpl; rewrite ?app_nil_r; reflexivity.
  - induction configured as [|cp cps IH]; constructor; [|exact IH].
    simpl. repeat split. apply expanduser_expands.
Qed.


(** [~/g] with [HOME=/home/u] can only become [/home/u/g]. *)
Example expands_home_directory (l : string) :
  expands Sample.layered_world "~/g" l → l = "/home/u/g".
Proof.
  inversion 1 as [p Hp|rest h Hr Hh|rest Hr Hh|u rest h Hu Hs Hr Hh Hp
                  |u rest Hu Hs Hr Hh Hp]; subst.
  - done.
  - vm_compute in Hh. by injection Hh as <-.
  - vm_compute in Hh. done.
  - destruct u as [|a u]; [done|]. injection Hp as Ha _. subst a.
    cbn in Hs. done.
  - destruct u as [|a u]; [done|]. injection Hp as Ha _. subst a.
    cbn in Hs. done.
Qed.

Example get_cheatpaths_layered :
  get_cheatpaths Sample.layered_world
    (Config (Some [Layer "global" "~/g" (Some true) []; Layer "work" "/w" None []])
            None None)
  = [Layer "global" "/home/u/g" (Some true) [];
     Layer "work" "/w" None [];
     Layer "local" "/proj/.cheat" (Some false) ["local"]].
Proof. vm_compute. reflexivity. Qed.

Example get_cheatpaths_no_local :
  get_cheatpaths Sample.tar_world (Config (Some [Sample.global_ro]) None None)
  = [Sample.global_ro].
Proof. vm_compute. reflexivity. Qed.

(** ** Resolver: [find_cheatsheet] *)

Section Resolver.

Variable w : world.
Variable cheatname : string.

Lemma find_in_app l1 l2 :
  find_in w cheatname (l1 ++ l2) =
    match find_in w cheatname l1 with
    | Some r => Some r
    | None => find_in w cheatname l2
    end.
Proof.
  induction l1 as [|e l1 IH]; simpl; [done|].
  destruct (probe w cheatname e); [done|apply IH].
Qed.

Lemma find_in_none l :
  Forall (λ e, probe w cheatname e = None) l → find_in w cheatname l = None.
Proof. induction 1 as [|e l He _ IH]; simpl; [done|]. by rewrite He. Qed.

(** A result comes from an entry of the list, by way of [probe]. *)
Lemma find_in_some l e p :
  find_in w cheatname l = Some (e, p) → e ∈ l ∧ probe w cheatname e = Some p.
Proof.
  induction l as [|e' l IH]; simpl; [done|].
  destruct (probe w cheatname e') as [p'|] eqn:E.
  - intros [= <- <-]. split; [left|done].
  - intros H. destruct (IH H). split; [by right|done].
Qed.

Lemma find_cheatsheet_some paths e p :
  find_cheatsheet w cheatname paths = Some (e, p) →
  e ∈ paths ∧ probe w cheatname e = Some p.
Proof.
  unfold find_cheatsheet. intros [Hin Hp]%find_in_some.
  split; [by apply elem_of_reverse|done].
Qed.

(** [probe] answers exactly for the layers that have the sheet. *)
Lemma probe_has_sheet e :
  is_Some (probe w cheatname e) ↔ has_sheet w e cheatname.
Proof.
  unfold probe, has_sheet.
  destruct (inside w _ _); simpl.
  - destruct (isfile w _); simpl.
    + split; [intros _; split; [done|by left]|by eauto].
    + destruct (glob w _) as [|m ms].
      * split; [by intros []|]. intros [_ [|]]; done.
      * split; [intros _; split; [done|by right]|by eauto].
  - split; [by intros []|by intros []].
Qed.

Lemma probe_no_sheet e :
  probe w cheatname e = None ↔ ¬ has_sheet w e cheatname.
Proof.
  rewrite <-probe_has_sheet, <-eq_None_not_Some. done.
Qed.

(** What the security check establishes: the normalised candidate
    starts, as a string, with the normalised layer directory. *)
Lemma probe_inside e p :
  probe w cheatname e = Some p →
  startswith (PosixPath.abspath (cwd w) (PosixPath.join (path e) cheatname))
             (PosixPath.abspath (cwd w) (path e)) = true.
Proof.
  unfold probe, inside. destruct (startswith _ _); [done|]. discriminate.
Qed.

Lemma find_cheatsheet_split globals e locals p :
  probe w cheatname e = Some p →
  Forall (λ l, probe w cheatname l = None) locals →
  find_cheatsheet w cheatname (globals ++ e :: locals) = Some (e, p).
Proof.
  intros Hp Hl. unfold find_cheatsheet.
  rewrite reverse_app, reverse_cons, <-app_assoc, find_in_app.
  rewrite find_in_none; [|by apply Forall_reverse].
  simpl. by rewrite Hp.
Qed.

End Resolver.

(** The synthetic layer [local] is the last of the path set, so a sheet
    in the [.cheat] directory answers before any configured layer. *)
Corollary find_cheatsheet_local_layer (w : world) (cfg : config)
    (cheatname p : string) :
  isdir w (local_cheat w) = true →
  probe w cheatname (local_layer w) = Some p →
  find_cheatsheet w cheatname (get_cheatpaths w cfg) = Some (local_layer w, p).
Proof.
  intros Hd Hp. unfold get_cheatpaths. rewrite Hd.
  by apply find_cheatsheet_split.
Qed.

Example find_cheatsheet_layered :
  find_cheatsheet Sample.layered_world "tar"
    (get_cheatpaths Sample.layered_world
       (Config (Some [Sample.global_ro; Layer "work" "/w" None []]) None None))
  = Some (Layer "local" "/proj/.cheat" (Some false) ["local"], "/proj/.cheat/tar").
Proof. vm_compute. reflexivity. Qed.

Example find_cheatsheet_without_local :
  find_cheatsheet Sample.layered_world "tar"
    [Sample.global_ro; Layer "work" "/w" None []]
  = Some (Layer "work" "/w" None [], "/w/tar.txt").
Proof. vm_compute. reflexivity. Qed.

(** C1. The security check of [find_cheatsheet] compares the normalised
    candidate with the normalised layer directory as strings: with the
    layer directory [/s], the name [../secret] normalises to [/secret],
    which starts with [/s], so the lookup returns [/s/../secret], the
    file [/secret] outside the layer directory. *)
Theorem find_cheatsheet_leaves_layer :
  find_cheatsheet Sample.secret_world "../secret" [Sample.sheets_s]
  = Some (Sample.sheets_s, "/s/../secret")
  ∧ stat Sample.secret_world "/s/../secret" = Some (File 2 "hunter2")
  ∧ ¬ beneath Sample.secret_world "/s" "/s/../secret".
Proof.
  split; [vm_compute; reflexivity|]. split; [vm_compute; reflexivity|].
  intros (kb & kp & Hb & Hp & Hpre).
  vm_compute in Hb, Hp. injection Hb as <-. injection Hp as <-.
  destruct Hpre as [k Hk]. discriminate Hk.
Qed.

(** With a layer directory that is no string prefix of the sibling, the
    same name is skipped. *)
Example find_cheatsheet_skips_parent :
  find_cheatsheet Sample.tar_world "../w/x" [Sample.global_ro] = None
  ∧ find_cheatsheet Sample.secret_world "../secret"
      [Layer "sheets" "/s/" (Some false) []] = Some (Layer "sheets" "/s/" (Some false) [], "/s/../secret").
Proof. split; vm_compute; reflexivity. Qed.

(** C2. A layer directory is handed to [glob] as part of a pattern:
    the most local layer [/x[1]] holds [tar.md], but [/x[1]/tar.*] only
    matches below a directory called [x1], so the lookup passes the
    local sheet by and returns the one of the more global layer [/g]. *)
Theorem find_cheatsheet_misses_local_sheet :
  isfile Sample.bracket_world "/x[1]/tar.md" = true
  ∧ isfile Sample.bracket_world "/g/tar.md" = true
  ∧ inside Sample.bracket_world "/x[1]" (PosixPath.join "/x[1]" "tar") = true
  ∧ glob Sample.bracket_world "/x[1]/tar.*" = []
  ∧ find_cheatsheet Sample.bracket_world "tar"
      [Sample.global_ro; Sample.bracket_layer]
    = Some (Sample.global_ro, "/g/tar.md").
Proof. repeat split; vm_compute; reflexivity. Qed.

(** The same pattern does match when a directory [x1] exists, and a
    name with a bracket finds the sheet of another name. *)
Example glob_reads_brackets :
  let w := World [("x1", Dir [("tar.md", File 1 "other")]);
                  ("x[1]", Dir [("tar.md", File 2 "local")]);
                  ("g", Dir [("a1.md", File 3 "a1"); ("a[1].md", File 4 "a[1]")])]
                 "/" [] "u" [] in
  glob w "/x[1]/tar.*" = ["/x1/tar.md"]
  ∧ find_cheatsheet w "a[1]" [Sample.global_ro]
    = Some (Sample.global_ro, "/g/a1.md").
Proof. split; vm_compute; reflexivity. Qed.

(** *** Matches with an extension *)

Section Globbing.

Lemma rpartition_none c t :
  mem_char c t = false → rpartition c t = ("", t).
Proof.
  induction t as [|a t IH]; simpl; [done|].
  intros [Ha Ht]%orb_false_elim. rewrite (IH Ht), Ha. done.
Qed.

Lemma rpartition_app c s t :
  mem_char c t = false →
  rpartition c (s +:+ t) = ((rpartition c s).1, (rpartition c s).2 +:+ t).
Proof.
  intros Ht. induction s as [|a s IH].
  - simpl. by rewrite rpartition_none.
  - change (String a s +:+ t) with (String a (s +:+ t)). simpl.
    rewrite IH. destruct (rpartition c s) as [h u]; simpl.
    destruct h; [destruct (Ascii.eqb a c)|]; done.
Qed.

Lemma mem_char_app c s t :
  mem_char c (s +:+ t) = mem_char c s || mem_char c t.
Proof.
  induction s as [|a s IH]; simpl; [done|].
  change (String a s +:+ t) with (String a (s +:+ t)). simpl.
  by rewrite IH, orb_assoc.
Qed.

Lemma mem_char_rpartition c d s :
  mem_char c s = false → mem_char c (rpartition d s).2 = false.
Proof.
  induction s as [|a s IH]; simpl; [done|].
  intros [Ha Hs]%orb_false_elim. specialize (IH Hs).
  destruct (rpartition d s) as [h u]; simpl in *.
  destruct h; [destruct (Ascii.eqb a d)|]; simpl; rewrite ?Ha; done.
Qed.

Lemma split_ext_pattern p :
  PosixPath.split (p +:+ ".*")
  = (PosixPath.dirname p, PosixPath.basename p +:+ ".*").
Proof.
  unfold PosixPath.split, PosixPath.dirname, PosixPath.basename,
    PosixPath.split.
  rewrite rpartition_app by done.
  destruct (rpartition sep p) as [h u]; simpl.
  destruct (negb (h =? "")%string && negb (all_char sep h)); done.
Qed.

(** The pieces of a pattern without wildcard. *)
Lemma translate_cons_literal c rest :
  Ascii.eqb c star = false → Ascii.eqb c qmark = false →
  Ascii.eqb c lbracket = false →
  translate (String c rest) = Lit c :: translate rest.
Proof. intros Hs Hq Hb. cbn [translate]. by rewrite Hs, Hq, Hb. Qed.

(** [.*] matches everything. *)
Lemma matches_star_only s : matches [Star] s = true.
Proof.
  induction s as [|a s IH]; [done|].
  cbn in *. by rewrite IH.
Qed.

Lemma prefix_cons a b s t :
  String.prefix (String a s) (String b t) = Ascii.eqb a b && String.prefix s t.
Proof.
  cbn [String.prefix]. destruct (ascii_dec a b) as [<-|Hne].
  - by rewrite Ascii.eqb_refl.
  - apply Ascii.eqb_neq in Hne. by rewrite Hne.
Qed.

Lemma prefix_nil s : String.prefix "" s = true.
Proof. by destruct s. Qed.

Lemma has_magic_cons c s :
  has_magic (String c s) = false →
  Ascii.eqb c star = false ∧ Ascii.eqb c qmark = false
  ∧ Ascii.eqb c lbracket = false ∧ has_magic s = false.
Proof.
  unfold has_magic. cbn [mem_char]. intros Hm.
  apply orb_false_elim in Hm as [[[Hs Hm1]%orb_false_elim
    [Hq Hm2]%orb_false_elim]%orb_false_elim [Hb Hm3]%orb_false_elim].
  by rewrite Hs, Hq, Hb, Hm1, Hm2, Hm3.
Qed.

(** For a literal [lit], the pattern [lit.*] matches the names that
    start with [lit.]. *)
Lemma fnmatch_literal_ext lit x :
  has_magic lit = false →
  fnmatchcase x (lit +:+ ".*") = startswith x (lit +:+ ".").
Proof.
  unfold fnmatchcase, startswith. revert x.
  induction lit as [|p lit IH]; intros x Hm.
  - change ("" +:+ ".*") with (String "." "*").
    change ("" +:+ ".") with (String "." "").
    change (translate (String "." "*")) with [Lit "."; Star].
    destruct x as [|a x]; [done|].
    cbn [matches accepts].
    by rewrite matches_star_only, prefix_cons, prefix_nil.
  - change (String p lit +:+ ".*") with (String p (lit +:+ ".*")).
    change (String p lit +:+ ".") with (String p (lit +:+ ".")).
    apply has_magic_cons in Hm as (Hs & Hq & Hb & Hlit).
    rewrite translate_cons_literal by done.
    destruct x as [|a x]; [done|].
    cbn [matches accepts]. rewrite prefix_cons.
    by rewrite (IH x Hlit).
Qed.

Lemma filter_filter_absorb {A} (P Q : A → Prop)
    `{∀ x, Decision (P x)} `{∀ x, Decision (Q x)} (l : list A) :
  (∀ x, P x → Q x) → filter P (filter Q l) = filter P l.
Proof.
  intros HPQ. induction l as [|x l IH]; [done|].
  rewrite !filter_cons. destruct (decide (Q x)) as [HQ|HQ].
  - rewrite filter_cons. destruct (decide (P x)); by rewrite IH.
  - destruct (decide (P x)) as [HP|]; [by apply HPQ in HP|done].
Qed.

(** The names [_glob1] keeps for [lit.*]: hidden names are dropped
    only when no match is hidden. *)
Lemma glob1_literal_ext w dirname lit :
  has_magic lit = false →
  glob1 w dirname (lit +:+ ".*") false
  = filter (λ x, startswith x (lit +:+ ".") = true)
      (scandir w (if String.eqb dirname "" then "." else dirname)).
Proof.
  intros Hm. unfold glob1, listdir, fnmatch_filter.
  set (names := scandir w _).
  assert (Hf : ∀ l : list string,
    filter (λ x, fnmatchcase x (lit +:+ ".*") = true) l
    = filter (λ x, startswith x (lit +:+ ".") = true) l).
  { intros l. apply list_filter_iff. intros x.
    by rewrite fnmatch_literal_ext. }
  destruct (ishidden (lit +:+ ".*")) eqn:Hh; simpl negb; cbv iota; [apply Hf|].
  rewrite Hf. apply filter_filter_absorb. intros x Hx.
  destruct lit as [|a lit]; [done|].
  change (String a lit +:+ ".*") with (String a (lit +:+ ".*")) in Hh.
  change (String a lit +:+ ".") with (String a (lit +:+ ".")) in Hx.
  unfold ishidden, startswith in *.
  destruct x as [|b x]; [done|].
  rewrite prefix_cons, prefix_nil, andb_true_r in *.
  apply andb_prop in Hx as [Hab _]. apply Ascii.eqb_eq in Hab as <-. done.
Qed.

Lemma mem_char_rpartition_head c d s :
  mem_char c s = false → mem_char c (rpartition d s).1 = false.
Proof.
  induction s as [|a s IH]; simpl; [done|].
  intros [Ha Hs]%orb_false_elim. specialize (IH Hs).
  destruct (rpartition d s) as [h u]; simpl in *.
  destruct h; [destruct (Ascii.eqb a d)|]; simpl; rewrite ?Ha; done.
Qed.

Lemma mem_char_rstrip_char c d s :
  mem_char c s = false → mem_char c (rstrip_char d s) = false.
Proof.
  induction s as [|a s IH]; simpl; [done|].
  intros [Ha Hs]%orb_false_elim. specialize (IH Hs).
  destruct (rstrip_char d s); [destruct (Ascii.eqb a d)|]; simpl in *;
    rewrite ?Ha; done.
Qed.

Lemma mem_char_dirname c p :
  mem_char c p = false → mem_char c (PosixPath.dirname p) = false.
Proof.
  intros Hp. unfold PosixPath.dirname, PosixPath.split.
  pose proof (mem_char_rpartition_head c sep p Hp) as Hh.
  destruct (rpartition sep p) as [h t]; simpl in *.
  destruct (_ && _); simpl; [by apply mem_char_rstrip_char|done].
Qed.

Lemma has_magic_dirname p :
  has_magic p = false → has_magic (PosixPath.dirname p) = false.
Proof.
  unfold has_magic.
  intros [[H1 H2]%orb_false_elim H3]%orb_false_elim.
  by rewrite !mem_char_dirname.
Qed.

Lemma join_empty_l b : PosixPath.join "" b = b.
Proof. unfold PosixPath.join. by destruct (startswith b "/"). Qed.

(** [glob.glob(target + ".*")] for a [target] free of glob characters. *)
Lemma glob_literal_ext w target :
  has_magic target = false →
  glob w (target +:+ ".*")
  = map (PosixPath.join (PosixPath.dirname target))
      (filter (λ x, startswith x (PosixPath.basename target +:+ ".") = true)
         (scandir w (if String.eqb (PosixPath.dirname target) "" then "."
                     else PosixPath.dirname target))).
Proof.
  intros Hm. unfold glob. cbn [iglob]. rewrite split_ext_pattern.
  assert (Hb : has_magic (PosixPath.basename target) = false).
  { unfold has_magic, PosixPath.basename in *.
    apply orb_false_elim in Hm as [[H1 H2]%orb_false_elim H3].
    by rewrite !mem_char_rpartition. }
  assert (Hp : ∀ s, has_magic (s +:+ ".*") = true).
  { intros s. unfold has_magic. rewrite (mem_char_app star). simpl.
    by rewrite !orb_true_r. }
  rewrite !Hp. simpl negb. cbv iota.
  rewrite (has_magic_dirname target Hm), andb_false_r.
  destruct (String.eqb_spec (PosixPath.dirname target) "") as [->|Hd].
  - rewrite glob1_literal_ext by done. simpl String.eqb. cbv iota.
    induction (filter _ _) as [|x l IH]; [done|].
    simpl. by rewrite join_empty_l, <-IH.
  - simpl. rewrite app_nil_r, glob1_literal_ext by done.
    apply String.eqb_neq in Hd. rewrite Hd.
    induction (filter _ _) as [|x l IH]; [done|].
    simpl. by rewrite <-IH.
Qed.

End Globbing.

(** Character sets, ranges and their corner cases. *)
Example fnmatchcase_sets :
  fnmatchcase "x1" "x[1]" = true
  ∧ fnmatchcase "x[1]" "x[1]" = false
  ∧ fnmatchcase "b" "[a-c]" = true
  ∧ fnmatchcase "b" "[!a-c]" = false
  ∧ fnmatchcase "-" "[a-]" = true
  ∧ fnmatchcase "]" "[]a]" = true
  ∧ fnmatchcase "[a" "[a" = true
  ∧ fnmatchcase "b" "[z-a]" = false
  ∧ fnmatchcase "d" "[z-a!-c]" = true
  ∧ fnmatchcase "c" "[z-a!-c]" = false
  ∧ fnmatchcase "tar" "tar.*" = false
  ∧ fnmatchcase "ab" "a*b*" = true.
Proof. repeat split; vm_compute; reflexivity. Qed.

(** C4, as the code has it. A layer that passes the security check and
    has no exact file for the name, when its directory joined with the
    name is free of glob characters, answers with the first entry of
    the directory, in the order the directory enumerates its entries,
    whose name starts with the name and a dot. *)
Theorem find_cheatsheet_first_enumerated
    (w : world) (cheatname : string) (globals locals : list layer) (e : layer)
    (c : string) (others : list string) :
  let target := PosixPath.join (path e) cheatname in
  let directory := PosixPath.dirname target in
  inside w (path e) target = true →
  isfile w target = false →
  has_magic target = false →
  filter (λ x, startswith x (PosixPath.basename target +:+ ".") = true)
    (scandir w (if String.eqb directory "" then "." else directory))
  = c :: others →
  Forall (λ l, ¬ has_sheet w l cheatname) locals →
  find_cheatsheet w cheatname (globals ++ e :: locals)
  = Some (e, PosixPath.join directory c).
Proof.
  intros target directory Hin Hf Hm Hc Hl.
  apply find_cheatsheet_split.
  - unfold probe. fold target. rewrite Hin, Hf. simpl.
    rewrite glob_literal_ext by done. fold directory. by rewrite Hc.
  - eapply Forall_impl; [exact Hl|]. intros l. by rewrite probe_no_sheet.
Qed.

Lemma find_cheatsheet_first_enumerated_witness :
  inside Sample.two_ext_world "/g" (PosixPath.join "/g" "tar") = true
  ∧ isfile Sample.two_ext_world (PosixPath.join "/g" "tar") = false
  ∧ has_magic (PosixPath.join "/g" "tar") = false
  ∧ filter (λ x, startswith x "tar." = true)
      (scandir Sample.two_ext_world "/g") = "tar.txt" :: ["tar.md"]
  ∧ find_cheatsheet Sample.two_ext_world "tar" ([] ++ Sample.global_ro :: [])
    = Some (Sample.global_ro, "/g/tar.txt").
Proof.
  split; [vm_compute; reflexivity|]. split; [vm_compute; reflexivity|].
  split; [vm_compute; reflexivity|]. split; [vm_compute; reflexivity|].
  apply (find_cheatsheet_first_enumerated Sample.two_ext_world "tar" [] []
           Sample.global_ro "tar.txt" ["tar.md"]);
    [vm_compute; reflexivity..|constructor].
Defined.

(** C4, as stated, fails: [/g] enumerates [tar.txt] before [tar.md]; there
    is no exact file [tar]; the lookup returns [/g/tar.txt] although the
    match [/g/tar.md] comes first in lexicographic order. *)
Lemma find_cheatsheet_not_lexicographic :
  isfile Sample.two_ext_world "/g/tar" = false
  ∧ isfile Sample.two_ext_world "/g/tar.md" = true
  ∧ isfile Sample.two_ext_world "/g/tar.txt" = true
  ∧ find_cheatsheet Sample.two_ext_world "tar" [Sample.global_ro]
    = Some (Sample.global_ro, "/g/tar.txt")
  ∧ String.le "/g/tar.md" "/g/tar.txt"
  ∧ ¬ String.le "/g/tar.txt" "/g/tar.md".
Proof.
  split; [vm_compute; reflexivity|]. split; [vm_compute; reflexivity|].
  split; [vm_compute; reflexivity|]. split; [vm_compute; reflexivity|].
  split; [vm_compute; exact I|]. vm_compute. intros [].
Qed.

(** A match may have several extension segments, and may be a
    directory. *)
Example find_cheatsheet_any_suffix :
  let w := World [("g", Dir [("tar.tar.gz", File 1 "x"); ("git.d", Dir [])])]
                 "/" [] "u" [] in
  find_cheatsheet w "tar" [Sample.global_ro] = Some (Sample.global_ro, "/g/tar.tar.gz")
  ∧ find_cheatsheet w "git" [Sample.global_ro] = Some (Sample.global_ro, "/g/git.d").
Proof. split; vm_compute; reflexivity. Qed.

(** ** Aggregator: [list_cheatsheets] and [search_cheatsheets] *)

Section Aggregator.

Variable w : world.

(** The walking loops visit the files the walk lists, hidden file
    names left out. *)
Lemma elem_of_visible_files base_dir root file :
  (root, file) ∈ visible_files w base_dir
  ↔ walked w base_dir root file ∧ ishidden file = false.
Proof.
  unfold visible_files, walked, ishidden. rewrite list_elem_of_bind. split.
  - intros ([[root' dirs] files] & Hin & Hw).
    apply list_elem_of_bind in Hin as (file' & Hin & Hf).
    destruct (startswith file' ".") eqn:E; [by apply elem_of_nil in Hin|].
    apply list_elem_of_singleton in Hin as [= -> ->]. eauto.
  - intros [(dirs & files & Hw & Hf) Hh].
    exists (root, dirs, files). split; [|done].
    apply list_elem_of_bind. exists file. split; [|done].
    rewrite Hh. by apply list_elem_of_singleton.
Qed.

Lemma elem_of_added paths flt s :
  s ∈ added w paths flt
  ↔ ∃ e root file,
      e ∈ paths ∧ filtered_out flt e = false ∧ isdir w (path e) = true
      ∧ walked w (path e) root file ∧ ishidden file = false
      ∧ s = sheet_name w (path e) root file.
Proof.
  unfold added. rewrite list_elem_of_bind. split.
  - intros (e & Hin & He).
    destruct (filtered_out flt e) eqn:Ef; [by apply elem_of_nil in Hin|].
    destruct (isdir w (path e)) eqn:Ed; [|by apply elem_of_nil in Hin].
    simpl in Hin. apply list_elem_of_bind in Hin as ([root file] & Hin & Hv).
    apply list_elem_of_singleton in Hin as ->.
    apply elem_of_visible_files in Hv as [Hw Hh].
    exists e, root, file. done.
  - intros (e & root & file & He & Hf & Hd & Hw & Hh & ->).
    exists e. split; [|done]. rewrite Hf, Hd. simpl.
    apply list_elem_of_bind. exists (root, file). split.
    + by apply list_elem_of_singleton.
    + by apply elem_of_visible_files.
Qed.

Lemma elem_of_list_cheatsheets paths flt s :
  s ∈ list_cheatsheets w paths flt ↔ s ∈ added w paths flt.
Proof.
  unfold list_cheatsheets.
  rewrite merge_sort_Permutation, elem_of_elements, elem_of_list_to_set.
  done.
Qed.

Lemma elem_of_file_hits term sheet lines h :
  h ∈ file_hits term sheet lines
  ↔ ∃ i line, lines !! i = Some line
              ∧ contains (lower line) (lower term) = true
              ∧ h = Hit sheet (i + 1) (strip line).
Proof.
  unfold file_hits, enumerate. rewrite list_elem_of_bind. split.
  - intros ([i line] & Hin & Hl).
    apply elem_of_lookup_imap in Hl as (i' & line' & [= -> ->] & Hl).
    destruct (contains _ _) eqn:E; [|by apply elem_of_nil in Hin].
    apply list_elem_of_singleton in Hin as ->. eauto.
  - intros (i & line & Hl & Hc & ->). exists (i, line). split.
    + rewrite Hc. by apply list_elem_of_singleton.
    + apply elem_of_lookup_imap. eauto.
Qed.

Lemma elem_of_search_hits term paths h :
  h ∈ search_hits w term paths
  ↔ ∃ e root file text i line,
      e ∈ paths ∧ isdir w (path e) = true
      ∧ walked w (path e) root file ∧ ishidden file = false
      ∧ read_text w (PosixPath.join root file) = Some text
      ∧ readlines text !! i = Some line
      ∧ contains (lower line) (lower term) = true
      ∧ h = Hit (sheet_name w (path e) root file) (i + 1) (strip line).
Proof.
  unfold search_hits. rewrite list_elem_of_bind. split.
  - intros (e & Hin & He).
    destruct (isdir w (path e)) eqn:Ed; [|by apply elem_of_nil in Hin].
    simpl in Hin. apply list_elem_of_bind in Hin as ([root file] & Hin & Hv).
    apply elem_of_visible_files in Hv as [Hw Hh].
    destruct (read_text w _) as [text|] eqn:Er; [|by apply elem_of_nil in Hin].
    apply elem_of_file_hits in Hin as (i & line & Hl & Hc & ->).
    exists e, root, file, text, i, line. done.
  - intros (e & root & file & text & i & line
            & He & Hd & Hw & Hh & Hr & Hl & Hc & ->).
    exists e. split; [|done]. rewrite Hd. simpl.
    apply list_elem_of_bind. exists (root, file). split.
    + rewrite Hr. apply elem_of_file_hits. eauto.
    + by apply elem_of_visible_files.
Qed.

(** Lower-casing is idempotent, so the case of the term is
    immaterial. *)
Lemma lower_char_idemp a : lower_char (lower_char a) = lower_char a.
Proof. by destruct a as [[] [] [] [] [] [] [] []]. Qed.

Lemma lower_idemp s : lower (lower s) = lower s.
Proof.
  induction s as [|a s IH]; simpl; [done|]. by rewrite lower_char_idemp, IH.
Qed.

End Aggregator.

(** The same name in three layers is listed once. *)
Example list_cheatsheets_three_layers :
  list_cheatsheets Sample.layered_world
    [Sample.global_ro; Layer "work" "/w" None [];
     Layer "local" "/proj/.cheat" (Some false) ["local"]] None
  = ["tar"].
Proof. vm_compute. reflexivity. Qed.

Example list_cheatsheets_strips_one_extension :
  let w := World [("g", Dir [("tar.tar.gz", File 1 "");
                             ("git", Dir [("branch.md", File 2 "")]);
                             ("awk", File 3 "")])] "/" [] "u" [] in
  list_cheatsheets w [Sample.global_ro] None = ["awk"; "git/branch"; "tar.tar"].
Proof. vm_compute. reflexivity. Qed.

(** C7, as stated, fails: the walk enters the hidden directory [.git],
    and its file [config] is listed and searched. *)
Lemma hidden_directory_is_walked :
  (∃ s, s ∈ list_cheatsheets Sample.hidden_world [Sample.global_ro] None
        ∧ ¬ no_hidden_segment s)
  ∧ (∃ h, h ∈ search_hits Sample.hidden_world "xzf" [Sample.global_ro]
          ∧ ¬ no_hidden_segment (hit_sheet h)).
Proof.
  split.
  - exists ".git/config". split.
    + vm_compute. set_solver.
    + intros H. apply Forall_cons in H as [H _]. vm_compute in H. done.
  - exists (Hit ".git/config" 1 "xzf = 1"). split.
    + vm_compute. set_solver.
    + intros H. apply Forall_cons in H as [H _]. vm_compute in H. done.
Qed.

Example hidden_world_listing :
  list_cheatsheets Sample.hidden_world [Sample.global_ro] None
  = [".git/config"; "tar"]
  ∧ search_cheatsheets Sample.hidden_world "xzf" [Sample.global_ro]
    = (["tar:1: tar -xzf"; ".git/config:1: xzf = 1"], true).
Proof. split; vm_compute; reflexivity. Qed.

(** C7, as the code has it. Every listed name and every search hit
    comes from a file, listed by the walk of a layer, whose own name
    does not start with a dot. *)
Theorem hidden_files_ignored
    (w : world) (paths : list layer) (filter_path_name : option string)
    (term : string) :
  (∀ s, s ∈ list_cheatsheets w paths filter_path_name →
     ∃ e root file,
       e ∈ paths ∧ walked w (path e) root file
       ∧ startswith file "." = false
       ∧ s = sheet_name w (path e) root file)
  ∧ (∀ h, h ∈ search_hits w term paths →
     ∃ e root file,
       e ∈ paths ∧ walked w (path e) root file
       ∧ startswith file "." = false
       ∧ hit_sheet h = sheet_name w (path e) root file).
Proof.
  split.
  - intros s Hs. apply elem_of_list_cheatsheets, elem_of_added in Hs
      as (e & root & file & He & _ & _ & Hw & Hh & ->).
    exists e, root, file. done.
  - intros h Hh. apply elem_of_search_hits in Hh
      as (e & root & file & text & i & line & He & _ & Hw & Hf & _ & _ & _ & ->).
    exists e, root, file. done.
Qed.

(** [/g/tar.md] has the command on line 3. *)
Example search_tar_world :
  search_cheatsheets Sample.tar_world "xzf" [Sample.global_ro; Sample.work_rw]
  = (["tar:3: tar -xzf file.tar.gz"], true)
  ∧ search_hits Sample.tar_world "XZF" [Sample.global_ro; Sample.work_rw]
    = [Hit "tar" 3 "tar -xzf file.tar.gz"]
  ∧ search_cheatsheets Sample.tar_world "zip" [Sample.global_ro; Sample.work_rw]
    = ([], false).
Proof. repeat split; vm_compute; reflexivity. Qed.

Lemma search_hits_case_insensitive w term paths :
  search_hits w (lower term) paths = search_hits w term paths.
Proof.
  unfold search_hits, file_hits. by rewrite lower_idemp.
Qed.

(** ** The directory tree under [put] *)

Section Tree.

Lemma assoc_set_entry_eq c x es : assoc c (set_entry c x es) = Some x.
Proof.
  induction es as [|[c' n] es IH]; simpl.
  - by rewrite String.eqb_refl.
  - destruct (String.eqb c c') eqn:E; simpl; rewrite ?String.eqb_refl, ?E; done.
Qed.

Lemma assoc_set_entry_ne c c' x es :
  c ≠ c' → assoc c' (set_entry c x es) = assoc c' es.
Proof.
  intros Hne. apply not_eq_sym, String.eqb_neq in Hne.
  induction es as [|[c0 n] es IH]; simpl.
  - by rewrite Hne.
  - destruct (String.eqb c c0) eqn:E; simpl.
    + apply String.eqb_eq in E as <-. by rewrite Hne.
    + by rewrite IH.
Qed.

Lemma is_dir_at_get r k : is_dir_at r k = true ↔ ∃ es, get r k = Some (Dir es).
Proof.
  unfold is_dir_at. destruct (get r k) as [[]|]; split;
    try done; try (by intros [? [=]]); eauto.
Qed.

Lemma get_app r k1 k2 :
  get r (k1 ++ k2) = match get r k1 with Some n => get n k2 | None => None end.
Proof.
  revert r. induction k1 as [|c k1 IH]; intros r; simpl; [done|].
  destruct r as [|es]; [done|]. destruct (assoc c es); [apply IH|done].
Qed.

(** What lies above an existing node is a directory. *)
Lemma is_dir_at_above r k c n : get r (k ++ [c]) = Some n → is_dir_at r k = true.
Proof.
  rewrite get_app. unfold is_dir_at.
  destruct (get r k) as [[|es]|]; simpl; done.
Qed.

Lemma is_dir_at_removelast r k : is_dir_at r k = true → is_dir_at r (removelast k) = true.
Proof.
  destruct (decide (k = [])) as [->|Hne]; [done|].
  intros [es Hes]%is_dir_at_get.
  rewrite (app_removelast_last "" Hne) in Hes.
  by apply is_dir_at_above in Hes.
Qed.

Lemma put_dir es c k x r' :
  put (Dir es) (c :: k) x = Some r' → ∃ es', r' = Dir es'.
Proof.
  simpl. destruct k.
  - intros [= <-]. eauto.
  - destruct (assoc c es); [|done].
    destruct (put _ _ _); intros [= <-]. eauto.
Qed.

Lemma get_put_eq r k x r' : put r k x = Some r' → get r' k = Some x.
Proof.
  revert r r'. induction k as [|c k IH]; intros r r'; simpl.
  - by intros [= ->].
  - destruct r as [|es]; [done|]. destruct k as [|c' k].
    + intros [= <-]. simpl. by rewrite assoc_set_entry_eq.
    + destruct (assoc c es) as [ch|]; [|done].
      destruct (put ch (c' :: k) x) as [ch'|] eqn:E; intros [= <-].
      cbn [get]. rewrite assoc_set_entry_eq. by apply (IH ch).
Qed.

(** Storing at [k], where no directory was, leaves every file that
    is elsewhere as it is. *)
Lemma get_put_file r k x r' q m d :
  put r k x = Some r' → not_dir (get r k) → q ≠ k →
  get r q = Some (File m d) → get r' q = Some (File m d).
Proof.
  revert r r' q. induction k as [|c k IH]; intros r r' q Hput Hnd Hne Hq.
  - simpl in Hput. injection Hput as <-.
    destruct r as [m' d'|es]; [|by destruct (Hnd es)].
    destruct q; [done|]. done.
  - destruct r as [|es]; [done|].
    destruct q as [|c2 q]; [done|].
    cbn [get] in Hq |- *.
    destruct (put_dir _ _ _ _ _ Hput) as [es' ->].
    destruct (decide (c = c2)) as [<-|Hc].
    + destruct (assoc c es) as [ch|] eqn:Ech; [|done].
      cbn [put] in Hput. destruct k as [|c' k].
      * injection Hput as <-. exfalso.
        cbn [get] in Hnd. rewrite Ech in Hnd.
        destruct ch as [m' d'|es0]; [|by destruct (Hnd es0)].
        destruct q; [by apply Hne|done].
      * rewrite Ech in Hput.
        destruct (put ch (c' :: k) x) as [ch'|] eqn:E; [|done].
        injection Hput as <-. rewrite assoc_set_entry_eq.
        apply (IH ch); [done| |congruence|done].
        cbn [get] in Hnd. by rewrite Ech in Hnd.
    + assert (assoc c2 es' = assoc c2 es) as ->; [|done].
      cbn [put] in Hput. destruct k as [|c' k].
      * injection Hput as <-. by apply assoc_set_entry_ne.
      * destruct (assoc c es) as [ch|]; [|done].
        destruct (put ch (c' :: k) x); [|done].
        injection Hput as <-. by apply assoc_set_entry_ne.
Qed.

(** ... and every directory stays a directory. *)
Lemma is_dir_at_put r k x r' q :
  put r k x = Some r' → not_dir (get r k) →
  is_dir_at r q = true → is_dir_at r' q = true.
Proof.
  revert r r' q. induction k as [|c k IH]; intros r r' q Hput Hnd Hq.
  - exfalso. apply is_dir_at_get in Hq as [es Hq].
    destruct r as [m d|es0]; [|by destruct (Hnd es0)].
    by destruct q.
  - destruct r as [|es]; [done|].
    destruct (put_dir _ _ _ _ _ Hput) as [es' ->].
    destruct q as [|c2 q]; [done|].
    unfold is_dir_at in *. cbn [get] in Hq |- *.
    destruct (decide (c = c2)) as [<-|Hc].
    + destruct (assoc c es) as [ch|] eqn:Ech; [|done].
      cbn [put] in Hput. destruct k as [|c' k].
      * exfalso. cbn [get] in Hnd. rewrite Ech in Hnd.
        destruct ch as [m' d'|es0]; [|by destruct (Hnd es0)].
        by destruct q.
      * rewrite Ech in Hput.
        destruct (put ch (c' :: k) x) as [ch'|] eqn:E; [|done].
        injection Hput as <-. rewrite assoc_set_entry_eq.
        apply (IH ch); [done| |done].
        cbn [get] in Hnd. by rewrite Ech in Hnd.
    + assert (assoc c2 es' = assoc c2 es) as ->; [|done].
      cbn [put] in Hput. destruct k as [|c' k].
      * injection Hput as <-. by apply assoc_set_entry_ne.
      * destruct (assoc c es) as [ch|]; [|done].
        destruct (put ch (c' :: k) x); [|done].
        injection Hput as <-. by apply assoc_set_entry_ne.
Qed.

(** A new entry can be stored in any directory. *)
Lemma put_in_dir r k c x :
  is_dir_at r k = true → is_Some (put r (k ++ [c]) x).
Proof.
  revert r. induction k as [|c0 k IH]; intros r Hd.
  - apply is_dir_at_get in Hd as [es [= ->]]. simpl. eauto.
  - unfold is_dir_at in Hd. cbn [get] in Hd.
    destruct r as [|es]; [done|].
    destruct (assoc c0 es) as [ch|] eqn:Ech; [|done].
    change ((c0 :: k) ++ [c]) with (c0 :: (k ++ [c])). cbn [put].
    rewrite Ech. destruct (IH ch Hd) as [ch' ->].
    destruct (k ++ [c]) eqn:E; [by destruct k|]. eauto.
Qed.

(** *** Path walks *)

Lemma walk_comps_app r cur l1 l2 :
  walk_comps r cur (l1 ++ l2)
  = match walk_comps r cur l1 with
    | Some k => walk_comps r k l2
    | None => None
    end.
Proof.
  revert cur. induction l1 as [|c l1 IH]; intros cur; simpl; [done|].
  destruct (is_dir_at r cur); [|done].
  destruct (_ || _); [apply IH|]. destruct (String.eqb c ".."); apply IH.
Qed.

(** A walk that succeeds keeps succeeding, with the same result, when
    directories stay directories. *)
Lemma walk_comps_mono r r' cur comps k :
  (∀ q, is_dir_at r q = true → is_dir_at r' q = true) →
  walk_comps r cur comps = Some k → walk_comps r' cur comps = Some k.
Proof.
  intros Hmono. revert cur. induction comps as [|c comps IH]; intros cur; simpl; [done|].
  destruct (is_dir_at r cur) eqn:E; [|done]. rewrite (Hmono _ E).
  destruct (_ || _); [apply IH|]. destruct (String.eqb c ".."); apply IH.
Qed.

(** A walk ends in a directory or on a name inside a directory. *)
Lemma walk_comps_end r cur comps k :
  walk_comps r cur comps = Some k → comps ≠ [] →
  is_dir_at r k = true ∨ ∃ k' c, k = k' ++ [c] ∧ is_dir_at r k' = true.
Proof.
  revert cur. induction comps as [|c comps IH]; intros cur Hw Hne; [done|].
  simpl in Hw. destruct (is_dir_at r cur) eqn:E; [|done].
  destruct comps as [|c' comps].
  - destruct (_ || _); simpl in Hw; [injection Hw as <-; by left|].
    destruct (String.eqb c ".."); simpl in Hw; injection Hw as <-.
    + left. by apply is_dir_at_removelast.
    + right. eauto.
  - destruct (_ || _); [by apply (IH cur)|].
    destruct (String.eqb c ".."); by eapply IH.
Qed.

(** Empty components change nothing in a directory. *)
Lemma walk_comps_empties r k n :
  is_dir_at r k = true → walk_comps r k (replicate n "") = Some k.
Proof. intros Hd. induction n as [|n IH]; simpl; [done|]. by rewrite Hd. Qed.

End Tree.

(** ** From a directory to the paths inside it *)

Section Paths.

Lemma app_cons a s t : String a s +:+ t = String a (s +:+ t).
Proof. done. Qed.

Lemma app_empty_r s : s +:+ "" = s.
Proof. induction s as [|a s IH]; [done|]. by rewrite app_cons, IH. Qed.

Lemma app_assoc' s t u : (s +:+ t) +:+ u = s +:+ (t +:+ u).
Proof. induction s as [|a s IH]; [done|]. by rewrite !app_cons, IH. Qed.

Lemma split_nonempty c s : Str.split c s ≠ [].
Proof.
  destruct s as [|a s]; simpl; [done|].
  destruct (Ascii.eqb a c); [done|]. by destruct (Str.split c s).
Qed.

Lemma split_none c t : mem_char c t = false → Str.split c t = [t].
Proof.
  induction t as [|a t IH]; simpl; [done|].
  intros [-> Ht]%orb_false_elim. by rewrite (IH Ht).
Qed.

Lemma split_app_sep c a b :
  Str.split c (a +:+ String c b) = Str.split c a ++ Str.split c b.
Proof.
  induction a as [|x a IH].
  - change ("" +:+ String c b) with (String c b). simpl.
    by rewrite Ascii.eqb_refl.
  - rewrite app_cons. simpl. rewrite IH.
    destruct (Ascii.eqb x c); [done|].
    destruct (Str.split c a) as [|h t] eqn:E; [by apply split_nonempty in E|].
    done.
Qed.

Lemma split_seps n : Str.split sep (seps n) = replicate (S n) "".
Proof. induction n as [|n IH]; [done|]. simpl. by rewrite IH. Qed.

Lemma split_app_seps a n :
  Str.split sep (a +:+ seps n) = Str.split sep a ++ replicate n "".
Proof.
  destruct n as [|n]; simpl.
  - by rewrite app_empty_r, app_nil_r.
  - by rewrite split_app_sep, split_seps.
Qed.

(** [rpartition]: the head ends with the separator, the tail has
    none. *)
Lemma rpartition_spec c s :
  s = (rpartition c s).1 +:+ (rpartition c s).2
  ∧ mem_char c (rpartition c s).2 = false
  ∧ ((rpartition c s).1 = "" ∨ ∃ d, (rpartition c s).1 = d +:+ String c "").
Proof.
  induction s as [|a s (IH1 & IH2 & IH3)]; simpl; [by auto|].
  destruct (rpartition c s) as [h t]; simpl in *.
  destruct h as [|b h].
  - destruct (Ascii.eqb a c) eqn:E; simpl.
    + apply Ascii.eqb_eq in E as ->. split; [by rewrite IH1|].
      split; [done|]. right. by exists "".
    + split; [by rewrite IH1|]. split; [by rewrite E|]. by left.
  - simpl. split; [by rewrite app_cons, <-IH1|]. split; [done|].
    right. destruct IH3 as [|[d Hd]]; [done|].
    exists (String a d). by rewrite app_cons, <-Hd.
Qed.

Lemma rstrip_char_snoc c d : rstrip_char c (d +:+ String c "") = rstrip_char c d.
Proof.
  induction d as [|a d IH].
  - simpl. change ("" +:+ String c "") with (String c ""). simpl.
    by rewrite Ascii.eqb_refl.
  - rewrite app_cons. simpl. by rewrite IH.
Qed.

Lemma rstrip_char_spec c s : ∃ n, s = rstrip_char c s +:+
    (fix rep n := match n with O => "" | S n => String c (rep n) end) n.
Proof.
  induction s as [|a s [n IH]]; simpl; [by exists 0%nat|].
  destruct (rstrip_char c s) as [|b r] eqn:E.
  - destruct (Ascii.eqb a c) eqn:Ea.
    + apply Ascii.eqb_eq in Ea as ->. exists (S n).
      change ("" +:+ ?x) with x in *. by rewrite <-IH.
    + exists n. rewrite app_cons. by rewrite <-IH.
  - exists n. rewrite app_cons. by rewrite <-IH.
Qed.

Lemma all_char_snoc c d : all_char c (d +:+ String c "") = all_char c d.
Proof.
  induction d as [|a d IH].
  - change ("" +:+ String c "") with (String c ""). simpl.
    by rewrite Ascii.eqb_refl.
  - rewrite app_cons. simpl. by rewrite IH.
Qed.

Lemma isabs_app x y : x ≠ "" → PosixPath.isabs (x +:+ y) = PosixPath.isabs x.
Proof.
  destruct x as [|a x]; [done|]. intros _.
  unfold PosixPath.isabs, startswith. rewrite app_cons.
  by rewrite !prefix_cons, !prefix_nil.
Qed.

(** The shape of a path with a non-empty [dirname]: the directory,
    some separators, and the last name. *)
Lemma dirname_shape p :
  PosixPath.dirname p ≠ "" →
  PosixPath.isabs p = PosixPath.isabs (PosixPath.dirname p)
  ∧ ∃ l n, Str.split sep (PosixPath.dirname p) = l ++ replicate n ""
           ∧ ∃ m, Str.split sep p = l ++ replicate m "" ++ [PosixPath.basename p].
Proof.
  unfold PosixPath.dirname, PosixPath.basename, PosixPath.split.
  destruct (rpartition_spec sep p) as (Hp & Ht & Hh).
  destruct (rpartition sep p) as [h t]; simpl in *.
  destruct Hh as [->|[d ->]]; [done|].
  rewrite all_char_snoc.
  assert (Hne : (d +:+ String sep "" =? "")%string = false).
  { apply String.eqb_neq. by destruct d. }
  rewrite Hne. simpl negb. rewrite andb_true_l.
  destruct (all_char sep d) eqn:Ea; simpl negb; cbv iota; simpl fst.
  - intros _. split.
    + rewrite Hp. apply isabs_app. by destruct d.
    + exists (Str.split sep d), 1%nat. split.
      * by rewrite split_app_sep.
      * exists 0%nat. rewrite Hp, app_assoc', app_cons.
        change ("" +:+ t) with t.
        by rewrite split_app_sep, (split_none sep t).
  - rewrite rstrip_char_snoc. intros Hr.
    destruct (rstrip_char_spec sep d) as [n Hd].
    change ((fix rep n := match n with O => "" | S n => String sep (rep n) end) n)
      with (seps n) in Hd.
    set (r := rstrip_char sep d) in *. clearbody r. subst d p.
    split.
    + rewrite !app_assoc'. by apply isabs_app.
    + exists (Str.split sep r), 0%nat. split.
      * by rewrite app_nil_r.
      * exists n. rewrite (app_assoc' (r +:+ seps n)), app_cons.
        change ("" +:+ t) with t.
        rewrite split_app_sep, (split_none sep t) by done.
        by rewrite split_app_seps, <-app_assoc.
Qed.

(** In an existing directory every path can be located. *)
Lemma locate_in_dirname w p :
  isdir w (PosixPath.dirname p) = true → is_Some (locate w p).
Proof.
  intros Hd.
  assert (Hne : PosixPath.dirname p ≠ "").
  { intros E. rewrite E in Hd. done. }
  assert (Hp : p ≠ "") by (by intros ->).
  destruct (dirname_shape p Hne) as (Habs & l & n & Hl & m & Hm).
  unfold isdir, stat, locate in Hd. unfold locate.
  apply String.eqb_neq in Hne, Hp. rewrite Hne in Hd. rewrite Hp.
  unfold comps_of in *. rewrite Habs, Hm. rewrite Hl in Hd.
  set (pre := if PosixPath.isabs (PosixPath.dirname p) then []
              else Str.split sep (cwd w)).
  assert (∀ x, (if PosixPath.isabs (PosixPath.dirname p) then x
                else Str.split sep (cwd w) ++ x) = pre ++ x) as Hpre.
  { intros x. unfold pre. by destruct (PosixPath.isabs _). }
  rewrite Hpre in Hd |- *.
  rewrite !walk_comps_app in Hd |- *.
  destruct (walk_comps (root w) [] pre) as [k0|]; [|done].
  rewrite !walk_comps_app in Hd |- *.
  destruct (walk_comps (root w) k0 l) as [k1|] eqn:E1; [|done].
  assert (Hk1 : is_dir_at (root w) k1 = true).
  { destruct n as [|n]; simpl in Hd.
    - unfold is_dir_at. by destruct (get (root w) k1) as [[]|].
    - by destruct (is_dir_at (root w) k1). }
  rewrite walk_comps_app, walk_comps_empties by done. simpl. rewrite Hk1.
  destruct (_ || _); [done|]. by destruct (String.eqb _ "..").
Qed.

End Paths.

(** ** [os.makedirs] and [shutil.copy2] on the tree *)

Section Copy.

Variable w : world.

Lemma comps_of_nonempty p : comps_of w p ≠ [].
Proof.
  unfold comps_of. destruct (PosixPath.isabs p).
  - apply split_nonempty.
  - intros [_ H]%app_eq_nil. by apply split_nonempty in H.
Qed.

Lemma with_root_same : with_root w (root w) = w.
Proof. by destruct w. Qed.

Lemma makedirs_from_existing r cur comps k :
  walk_comps r cur comps = Some k → is_dir_at r k = true →
  makedirs_from r cur comps = Some r.
Proof.
  revert cur. induction comps as [|c comps IH]; intros cur Hw Hk; [done|].
  simpl in *. destruct (is_dir_at r cur) eqn:Ec; [|done].
  destruct (_ || _); [by apply IH|].
  destruct (String.eqb c ".."); [by apply IH|].
  assert (Hd : is_dir_at r (cur ++ [c]) = true).
  { destruct comps as [|c' comps]; simpl in Hw.
    - by injection Hw as <-.
    - by destruct (is_dir_at r (cur ++ [c])). }
  apply is_dir_at_get in Hd as [es Hes]. rewrite Hes. by apply IH.
Qed.

(** Nothing to create in an existing directory. *)
Lemma makedirs_existing p : isdir w p = true → makedirs w p = Some w.
Proof.
  unfold isdir, stat, locate, makedirs.
  destruct (String.eqb p ""); [done|].
  destruct (walk_comps (root w) [] (comps_of w p)) as [k|] eqn:E; [|done].
  intros Hk. rewrite (makedirs_from_existing _ _ _ k E).
  - by rewrite with_root_same.
  - unfold is_dir_at. by destruct (get (root w) k) as [[]|].
Qed.

(** What [makedirs] creates leaves directories and files as they are. *)
Lemma makedirs_from_keeps r cur comps r' :
  makedirs_from r cur comps = Some r' →
  (∀ q, is_dir_at r q = true → is_dir_at r' q = true)
  ∧ (∀ q m d, get r q = Some (File m d) → get r' q = Some (File m d)).
Proof.
  revert r cur. induction comps as [|c comps IH]; intros r cur; simpl.
  - by intros [= <-].
  - destruct (_ || _).
    { destruct (is_dir_at r cur); [apply IH|done]. }
    destruct (String.eqb c "..").
    { destruct (is_dir_at r cur); [apply IH|done]. }
    destruct (get r (cur ++ [c])) as [[m0 d0|es]|] eqn:Eg; [done|apply IH|].
    destruct (put r (cur ++ [c]) (Dir [])) as [r1|] eqn:Ep; [|done].
    intros [Hd Hf]%IH.
    assert (Hnd : not_dir (get r (cur ++ [c]))) by (by rewrite Eg).
    split.
    + intros q Hq. apply Hd. by apply (is_dir_at_put _ _ _ _ _ Ep).
    + intros q m d Hq. apply Hf.
      apply (get_put_file _ _ _ _ _ _ _ Ep Hnd); [|done].
      intros ->. by rewrite Eg in Hq.
Qed.

(** After [makedirs] the path leads to a directory. *)
Lemma makedirs_from_made r cur comps r' :
  makedirs_from r cur comps = Some r' → is_dir_at r cur = true →
  ∃ k, walk_comps r' cur comps = Some k ∧ is_dir_at r' k = true.
Proof.
  revert r cur. induction comps as [|c comps IH]; intros r cur Hm Hcur.
  - simpl in Hm. injection Hm as <-. by exists cur.
  - pose proof (proj1 (makedirs_from_keeps _ _ _ _ Hm) _ Hcur) as Hcur'.
    simpl in Hm |- *. rewrite Hcur'. rewrite Hcur in Hm.
    destruct (_ || _); [by apply (IH r)|].
    destruct (String.eqb c "..").
    { apply (IH r); [done|]. by apply is_dir_at_removelast. }
    destruct (get r (cur ++ [c])) as [[m0 d0|es]|] eqn:Eg; [done| |].
    + apply (IH r); [done|]. apply is_dir_at_get. eauto.
    + destruct (put r (cur ++ [c]) (Dir [])) as [r1|] eqn:Ep; [|done].
      apply (IH r1); [done|]. apply is_dir_at_get. exists [].
      by apply (get_put_eq _ _ _ _ Ep).
Qed.

(** [makedirs]: the directory exists afterwards, and every regular file
    is where and what it was. *)
Lemma makedirs_spec p w1 :
  makedirs w p = Some w1 →
  isdir w1 p = true
  ∧ (∀ q m d, stat w q = Some (File m d) → stat w1 q = Some (File m d)).
Proof.
  unfold makedirs. destruct (String.eqb p "") eqn:Ep; [done|].
  destruct (makedirs_from (root w) [] (comps_of w p)) as [r'|] eqn:Em; [|done].
  intros [= <-].
  destruct (makedirs_from_keeps _ _ _ _ Em) as [Hd Hf].
  destruct (makedirs_from_made _ _ _ _ Em eq_refl) as (k & Hk & Hkd).
  assert (Hr : ∃ es', r' = Dir es').
  { specialize (Hd [] eq_refl). apply is_dir_at_get in Hd as [es' [= ->]]. eauto. }
  destruct Hr as [es' ->]. split.
  - unfold isdir, stat, locate. rewrite Ep.
    change (comps_of (with_root w (Dir es')) p) with (comps_of w p).
    change (root (with_root w (Dir es'))) with (Dir es').
    rewrite Hk. apply is_dir_at_get in Hkd as [es Hes]. by rewrite Hes.
  - intros q m d. unfold stat, locate.
    destruct (String.eqb q ""); [done|].
    change (comps_of (with_root w (Dir es')) q) with (comps_of w q).
    change (root (with_root w (Dir es'))) with (Dir es').
    destruct (walk_comps (root w) [] (comps_of w q)) as [kq|] eqn:Eq; [|done].
    rewrite (walk_comps_mono _ _ _ _ _ Hd Eq). apply Hf.
Qed.

(** Copying a regular file to a path in an existing directory, where
    there is no directory and which is not the file itself, stores
    content and modification time there and keeps the source. *)
Lemma copy2_file src dst m d :
  stat w src = Some (File m d) →
  isdir w (PosixPath.dirname dst) = true →
  isdir w dst = false →
  samefile w src dst = false →
  ∃ w', copy2 w src dst = Some w'
        ∧ stat w' dst = Some (File m d)
        ∧ stat w' src = Some (File m d).
Proof.
  intros Hsrc Hdir Hnd Hsf. unfold copy2. rewrite Hnd, Hsf, Hsrc.
  destruct (locate_in_dirname w dst Hdir) as [k Hk]. rewrite Hk.
  assert (Hnk : not_dir (get (root w) k)).
  { intros es Hes. unfold isdir, stat in Hnd. by rewrite Hk, Hes in Hnd. }
  destruct k as [|c k]; [by destruct (Hnk (tree w))|].
  assert (Hput : is_Some (put (root w) (c :: k) (File m d))).
  { unfold locate in Hk. destruct (String.eqb dst ""); [done|].
    destruct (walk_comps_end _ _ _ _ Hk (comps_of_nonempty dst))
      as [Hd|(k' & c' & -> & Hd)].
    - apply is_dir_at_get in Hd as [es Hes]. by destruct (Hnk es).
    - by apply put_in_dir. }
  destruct Hput as [r' Hput].
  destruct (put_dir _ _ _ _ _ Hput) as [es' ->].
  assert (Hmono : ∀ q, is_dir_at (root w) q = true →
                       is_dir_at (Dir es') q = true).
  { intros q. by apply (is_dir_at_put _ _ _ _ _ Hput). }
  assert (Hloc : ∀ p kp, locate w p = Some kp →
                         locate (with_root w (Dir es')) p = Some kp).
  { intros p kp. unfold locate. destruct (String.eqb p ""); [done|].
    apply walk_comps_mono, Hmono. }
  assert (Hdst : stat (with_root w (Dir es')) dst = Some (File m d)).
  { unfold stat. rewrite (Hloc _ _ Hk). by apply (get_put_eq _ _ _ _ Hput). }
  assert (Hkeep : stat (with_root w (Dir es')) src = Some (File m d)).
  { unfold stat in Hsrc |- *.
    destruct (locate w src) as [ks|] eqn:Es; [|done].
    rewrite (Hloc _ _ Es).
    apply (get_put_file _ _ _ _ _ _ _ Hput Hnk); [|done].
    intros ->. unfold samefile in Hsf. rewrite Es, Hk, Hsrc in Hsf.
    by rewrite bool_decide_eq_true_2 in Hsf. }
  exists (with_root w (Dir es')). split; [|done].
  rewrite Hput.
  destruct (get (root w) (c :: k)) as [[m0 d0|es0]|] eqn:Eg;
    [done|by destruct (Hnk es0)|done].
Qed.

End Copy.

(** ** WriteRouter: [edit_cheatsheet] *)

Section WriteRouter.

Lemma first_writable_none paths :
  Forall (λ e, is_readonly e = true) paths → first_writable paths = None.
Proof. induction 1 as [|e l He _ IH]; simpl; [done|]. by rewrite He. Qed.

Lemma first_writable_some paths t :
  first_writable paths = Some t →
  ∃ pre post, paths = pre ++ t :: post
              ∧ Forall (λ e, is_readonly e = true) pre
              ∧ is_readonly t = false.
Proof.
  induction paths as [|e l IH]; simpl; [done|].
  destruct (is_readonly e) eqn:E; simpl.
  - intros (pre & post & -> & Hpre & Ht)%IH.
    exists (e :: pre), post. split; [done|]. split; [by constructor|done].
  - intros [= <-]. exists [], l. done.
Qed.

Lemma first_writable_split pre t post :
  Forall (λ e, is_readonly e = true) pre → is_readonly t = false →
  first_writable (pre ++ t :: post) = Some t.
Proof.
  intros Hpre Ht. induction Hpre as [|e l He _ IH]; simpl.
  - by rewrite Ht.
  - by rewrite He.
Qed.

End WriteRouter.

(** C5. With no writable layer, editing prints the error, exits with
    status 1 and leaves the filesystem as it was: nothing is copied or
    created and no editor is started, whether the name resolves (to a
    read-only layer) or not. *)
Theorem edit_cheatsheet_no_writable
    (w : world) (cheatname : string) (paths : list layer) (cfg : config) :
  Forall (λ e, is_readonly e = true) paths →
  ∃ log, edit_cheatsheet w cheatname paths cfg
         = Exited 1 w (log ++ [Stdout "Error: No writable cheatpath found."])
         ∧ Forall is_stdout log.
Proof.
  intros Hro. unfold edit_cheatsheet.
  rewrite (first_writable_none paths Hro).
  destruct (find_cheatsheet w cheatname paths) as [[e full]|] eqn:Ef.
  - apply find_cheatsheet_some in Ef as [Hin _].
    rewrite Forall_forall in Hro. rewrite (Hro e Hin). simpl.
    exists [Stdout ("Path '" +:+ name e
                    +:+ "' is read-only. Copying to personal path...")].
    split; [reflexivity|]. by repeat constructor.
  - exists []. done.
Qed.

Lemma edit_cheatsheet_no_writable_witness :
  Forall (λ e, is_readonly e = true) [Sample.global_ro]
  ∧ ∃ log, edit_cheatsheet Sample.tar_world "missing" [Sample.global_ro]
             Sample.no_config
           = Exited 1 Sample.tar_world
               (log ++ [Stdout "Error: No writable cheatpath found."])
           ∧ Forall is_stdout log.
Proof.
  assert (H : Forall (λ e, is_readonly e = true) [Sample.global_ro]).
  { constructor; [reflexivity|constructor]. }
  split; [exact H|].
  exact (edit_cheatsheet_no_writable Sample.tar_world "missing"
           [Sample.global_ro] Sample.no_config H).
Defined.

Example edit_missing_read_only :
  edit_cheatsheet Sample.tar_world "missing" [Sample.global_ro] Sample.no_config
  = Exited 1 Sample.tar_world [Stdout "Error: No writable cheatpath found."]
  ∧ edit_cheatsheet Sample.tar_world "tar" [Sample.global_ro] Sample.no_config
    = Exited 1 Sample.tar_world
        [Stdout "Path 'global' is read-only. Copying to personal path...";
         Stdout "Error: No writable cheatpath found."].
Proof. split; vm_compute; reflexivity. Qed.



Example edit_in_layer_without_readonly :
  let w := World [("g", Dir [("tar.md", File 1 "g")]);
                  ("p", Dir [("tar.md", File 2 "p")])] "/" [] "u" [] in
  edit_cheatsheet w "tar" [Sample.global_ro; Sample.personal] Sample.no_config
  = Returned w [Call "vi '/p/tar.md'"]
  ∧ edit_cheatsheet w "new" [Sample.global_ro; Sample.personal] Sample.no_config
    = Returned w [Call "vi '/p/new'"].
Proof. split; vm_compute; reflexivity. Qed.

(** C3, as stated, fails: [foo.md] resolves to [/g/foo.md] in a
    read-only layer; the copy goes to [/w/foo.md], the joined path
    itself, and not to the joined path with the extension [.md]
    appended. *)
Lemma edit_cheatsheet_extension_not_appended :
  ∃ w',
    find_cheatsheet Sample.foo_world "foo.md" [Sample.global_ro; Sample.work_rw]
    = Some (Sample.global_ro, "/g/foo.md")
    ∧ first_writable [Sample.global_ro; Sample.work_rw] = Some Sample.work_rw
    ∧ (PosixPath.splitext "/g/foo.md").2 = ".md"
    ∧ edit_cheatsheet Sample.foo_world "foo.md"
        [Sample.global_ro; Sample.work_rw] Sample.no_config
      = Returned w'
          [Stdout "Path 'global' is read-only. Copying to personal path...";
           Stdout "Copied to /w/foo.md"; Call "vi '/w/foo.md'"]
    ∧ stat w' (PosixPath.join "/w" "foo.md") = Some (File 5 "foo sheet")
    ∧ stat w' (PosixPath.join "/w" "foo.md" +:+ ".md") = None.
Proof.
  eexists. split; [vm_compute; reflexivity|].
  split; [vm_compute; reflexivity|]. split; [vm_compute; reflexivity|].
  split; [vm_compute; reflexivity|]. split; vm_compute; reflexivity.
Qed.

(** C3, as the code has it. Editing a name that resolves to a regular
    file of a read-only layer copies that file, content and modification
    time, into the first writable layer of the list: to the layer
    directory joined with the name, with the extension of the original
    appended when it has one and the joined path does not end with it
    yet.  The original stays as it is.  The directories of the target
    have to exist or be creatable, and the target must then not be a
    directory or the original itself. *)
Theorem edit_cheatsheet_copy_on_write
    (w w1 : world) (cheatname : string) (cfg : config)
    (pre post : list layer) (e t : layer) (full : string) (m : Z) (d : string) :
  let paths := pre ++ t :: post in
  let joined := PosixPath.join (path t) cheatname in
  let ext := (PosixPath.splitext full).2 in
  let target :=
    if negb (String.eqb ext "") && negb (endswith joined ext)
    then joined +:+ ext else joined in
  find_cheatsheet w cheatname paths = Some (e, full) →
  is_readonly e = true →
  Forall (λ x, is_readonly x = true) pre →
  is_readonly t = false →
  stat w full = Some (File m d) →
  makedirs w (PosixPath.dirname target) = Some w1 →
  isdir w1 target = false →
  samefile w1 full target = false →
  ∃ w',
    edit_cheatsheet w cheatname paths cfg
    = Returned w'
        [Stdout ("Path '" +:+ name e
                 +:+ "' is read-only. Copying to personal path...");
         Stdout ("Copied to " +:+ target);
         Call (the_editor w cfg +:+ " '" +:+ target +:+ "'")]
    ∧ stat w' target = Some (File m d)
    ∧ stat w' full = Some (File m d).
Proof.
  intros paths joined ext target Hf He Hpre Ht Hfull Hmk Hnd Hsf.
  unfold edit_cheatsheet. rewrite Hf, He. simpl negb. cbv iota.
  unfold paths. rewrite (first_writable_split pre t post Hpre Ht).
  change (copy_target t cheatname full) with target. rewrite Hmk.
  destruct (makedirs_spec w _ w1 Hmk) as [Hdir Hkeep].
  destruct (copy2_file w1 full target m d (Hkeep _ _ _ Hfull) Hdir Hnd Hsf)
    as (w' & -> & Hnew & Hold).
  exists w'. done.
Qed.

(** [git/branch] resolves to [/g/git/branch.md]; the copy goes to
    [/w/git/branch.md], in the directory [/w/git] made for it. *)
Lemma edit_cheatsheet_copy_on_write_witness :
  find_cheatsheet Sample.branch_world "git/branch"
    ([Sample.global_ro] ++ Sample.work_rw :: [Sample.personal])
  = Some (Sample.global_ro, "/g/git/branch.md")
  ∧ is_readonly Sample.global_ro = true
  ∧ Forall (λ x, is_readonly x = true) [Sample.global_ro]
  ∧ is_readonly Sample.work_rw = false
  ∧ stat Sample.branch_world "/g/git/branch.md" = Some (File 4 "git branch")
  ∧ makedirs Sample.branch_world (PosixPath.dirname "/w/git/branch.md")
    = Some Sample.branch_world_git
  ∧ isdir Sample.branch_world_git "/w/git/branch.md" = false
  ∧ samefile Sample.branch_world_git "/g/git/branch.md" "/w/git/branch.md" = false
  ∧ ∃ w',
      edit_cheatsheet Sample.branch_world "git/branch"
        ([Sample.global_ro] ++ Sample.work_rw :: [Sample.personal])
        Sample.no_config
      = Returned w'
          [Stdout "Path 'global' is read-only. Copying to personal path...";
           Stdout "Copied to /w/git/branch.md"; Call "vi '/w/git/branch.md'"]
      ∧ stat w' "/w/git/branch.md" = Some (File 4 "git branch")
      ∧ stat w' "/g/git/branch.md" = Some (File 4 "git branch").
Proof.
  assert (H3 : Forall (λ x, is_readonly x = true) [Sample.global_ro]).
  { constructor; [reflexivity|constructor]. }
  split; [vm_compute; reflexivity|]. split; [reflexivity|].
  split; [exact H3|]. split; [reflexivity|].
  split; [vm_compute; reflexivity|]. split; [vm_compute; reflexivity|].
  split; [vm_compute; reflexivity|]. split; [vm_compute; reflexivity|].
  exact (edit_cheatsheet_copy_on_write Sample.branch_world
           Sample.branch_world_git "git/branch" Sample.no_config
           [Sample.global_ro] [Sample.personal] Sample.global_ro Sample.work_rw
           "/g/git/branch.md" 4 "git branch"
           ltac:(vm_compute; reflexivity) eq_refl H3 eq_refl
           ltac:(vm_compute; reflexivity) ltac:(vm_compute; reflexivity)
           ltac:(vm_compute; reflexivity) ltac:(vm_compute; reflexivity)).
Defined.

(** The scenario of the specification: [tar] resolves to [/g/tar.md],
    [/w] is empty; the copy is [/w/tar.md]. *)
Example edit_tar_scenario :
  edit_cheatsheet Sample.tar_world "tar" [Sample.global_ro; Sample.work_rw]
    Sample.no_config
  = Returned
      (World [("g", Dir [("tar.md",
                          File 7 ("# tar" +:+ Sample.nl +:+ Sample.nl
                                  +:+ "tar -xzf file.tar.gz" +:+ Sample.nl))]);
              ("w", Dir [("tar.md",
                          File 7 ("# tar" +:+ Sample.nl +:+ Sample.nl
                                  +:+ "tar -xzf file.tar.gz" +:+ Sample.nl))])]
             "/home/u" [] "u" [])
      [Stdout "Path 'global' is read-only. Copying to personal path...";
       Stdout "Copied to /w/tar.md"; Call "vi '/w/tar.md'"].
Proof. vm_compute. reflexivity. Qed.

(** An absolute name inside a read-only layer resolves to the file
    itself; joining it to the writable layer gives the same file back,
    and the copy raises. *)
Example edit_absolute_name_raises :
  edit_cheatsheet Sample.foo_world "/g/foo.md"
    [Sample.global_ro; Sample.work_rw] Sample.no_config
  = Raised [Stdout "Path 'global' is read-only. Copying to personal path..."].
Proof. vm_compute. reflexivity. Qed.

(** The copy goes to the first writable layer of the list, not to the
    most local one, and missing directories of the target are created. *)
Example edit_copy_first_writable :
  edit_cheatsheet Sample.branch_world "git/branch"
    [Sample.global_ro; Sample.work_rw; Sample.personal] Sample.no_config
  = Returned
      (World [("g", Dir [("git", Dir [("branch.md", File 4 "git branch")])]);
              ("w", Dir [("git", Dir [("branch.md", File 4 "git branch")])]);
              ("p", Dir [])] "/" [] "u" [])
      [Stdout "Path 'global' is read-only. Copying to personal path...";
       Stdout "Copied to /w/git/branch.md"; Call "vi '/w/git/branch.md'"].
Proof. vm_compute. reflexivity. Qed.

(** A name that is not found: the directory is created in the first
    writable layer, the file is left to the editor. *)
Example edit_new_sheet :
  edit_cheatsheet Sample.tar_world "git/log"
    [Sample.global_ro; Sample.work_rw] Sample.no_config
  = Returned
      (World [("g", Dir [("tar.md",
                          File 7 ("# tar" +:+ Sample.nl +:+ Sample.nl
                                  +:+ "tar -xzf file.tar.gz" +:+ Sample.nl))]);
              ("w", Dir [("git", Dir [])])] "/home/u" [] "u" [])
      [Call "vi '/w/git/log'"].
Proof. vm_compute. reflexivity. Qed.

(** * Further properties *)

Import Cli.

(** ** Resolver *)

Lemma find_in_split w cheatname l e p :
  find_in w cheatname l = Some (e, p) →
  ∃ l1 l2, l = l1 ++ e :: l2
           ∧ Forall (λ x, probe w cheatname x = None) l1
           ∧ probe w cheatname e = Some p.
Proof.
  induction l as [|x l IH]; simpl; [done|].
  destruct (probe w cheatname x) as [q|] eqn:E.
  - intros [= <- <-]. exists [], l. done.
  - intros (l1 & l2 & -> & Hl1 & Hp)%IH.
    exists (x :: l1), l2. split; [done|]. split; [by constructor|done].
Qed.

Lemma find_in_none_inv w cheatname l :
  find_in w cheatname l = None → Forall (λ x, probe w cheatname x = None) l.
Proof.
  induction l as [|x l IH]; simpl; [done|].
  destruct (probe w cheatname x) eqn:E; [done|]. intros H. constructor; auto.
Qed.

(** X1. The lookup finds nothing exactly when no layer has the sheet. *)
Theorem find_cheatsheet_none_iff
    (w : world) (cheatname : string) (paths : list layer) :
  find_cheatsheet w cheatname paths = None
  ↔ Forall (λ e, ¬ has_sheet w e cheatname) paths.
Proof.
  unfold find_cheatsheet. split.
  - intros H%find_in_none_inv. apply Forall_reverse in H.
    rewrite reverse_involutive in H.
    eapply Forall_impl; [exact H|]. intros e. by rewrite probe_no_sheet.
  - intros H. apply find_in_none, Forall_reverse.
    eapply Forall_impl; [exact H|]. intros e. by rewrite probe_no_sheet.
Qed.

(** X2. A result names a layer of the list that has the sheet, and no
    layer after it in the list has it. *)
Theorem find_cheatsheet_some_inv
    (w : world) (cheatname : string) (paths : list layer)
    (e : layer) (p : string) :
  find_cheatsheet w cheatname paths = Some (e, p) →
  ∃ globals locals,
    paths = globals ++ e :: locals
    ∧ has_sheet w e cheatname
    ∧ Forall (λ l, ¬ has_sheet w l cheatname) locals.
Proof.
  unfold find_cheatsheet. intros (l1 & l2 & Hrev & Hl1 & Hp)%find_in_split.
  exists (reverse l2), (reverse l1). split; [|split].
  - rewrite <-(reverse_involutive paths), Hrev.
    by rewrite reverse_app, reverse_cons, <-app_assoc.
  - apply probe_has_sheet. eauto.
  - apply Forall_reverse.
    eapply Forall_impl; [exact Hl1|]. intros l. by rewrite probe_no_sheet.
Qed.

Lemma find_cheatsheet_some_inv_witness :
  find_cheatsheet Sample.layered_world "tar"
    [Sample.global_ro; Layer "work" "/w" None []; Sample.personal]
  = Some (Layer "work" "/w" None [], "/w/tar.txt")
  ∧ ∃ globals locals,
      [Sample.global_ro; Layer "work" "/w" None []; Sample.personal]
      = globals ++ Layer "work" "/w" None [] :: locals
      ∧ has_sheet Sample.layered_world (Layer "work" "/w" None []) "tar"
      ∧ Forall (λ l, ¬ has_sheet Sample.layered_world l "tar") locals.
Proof.
  split; [vm_compute; reflexivity|].
  apply (find_cheatsheet_some_inv Sample.layered_world "tar" _ _ "/w/tar.txt").
  vm_compute. reflexivity.
Defined.

(** ** PathSet *)

Lemma first_writable_exists paths e :
  e ∈ paths → is_readonly e = false → is_Some (first_writable paths).
Proof.
  induction paths as [|x l IH]; [by intros ?%elem_of_nil|].
  intros Hin He. simpl. destruct (is_readonly x) eqn:Ex; simpl; [|by eauto].
  apply elem_of_cons in Hin as [->|Hin]; [congruence|]. by apply IH.
Qed.

(** X3. In a working directory with a [.cheat] directory there is
    always a writable layer: editing never ends with the "no writable
    cheatpath" exit, whatever the configuration. *)
Theorem edit_cheatsheet_with_local_never_exits
    (w : world) (cfg : config) (cheatname : string) :
  isdir w (PosixPath.join (cwd w) ".cheat") = true →
  is_Some (first_writable (get_cheatpaths w cfg))
  ∧ ∀ status w' log,
      edit_cheatsheet w cheatname (get_cheatpaths w cfg) cfg
      ≠ Exited status w' log.
Proof.
  intros Hd.
  assert (Hw : is_Some (first_writable (get_cheatpaths w cfg))).
  { apply (first_writable_exists _ (local_layer w)); [|done].
    unfold get_cheatpaths, local_cheat. rewrite Hd.
    apply elem_of_app. right. by apply list_elem_of_singleton. }
  split; [done|]. intros status w' log. destruct Hw as [t Ht].
  unfold edit_cheatsheet. rewrite Ht.
  destruct (find_cheatsheet w cheatname _) as [[e full]|].
  - destruct (negb (is_readonly e)); [done|].
    destruct (makedirs w _) as [w1|]; [|done].
    by destruct (copy2 w1 _ _).
  - by destruct (makedirs w _).
Qed.

Lemma edit_cheatsheet_with_local_never_exits_witness :
  isdir Sample.layered_world
    (PosixPath.join (cwd Sample.layered_world) ".cheat") = true
  ∧ is_Some (first_writable
               (get_cheatpaths Sample.layered_world Sample2.read_only_config))
  ∧ ∀ status w' log,
      edit_cheatsheet Sample.layered_world "tar"
        (get_cheatpaths Sample.layered_world Sample2.read_only_config)
        Sample2.read_only_config
      ≠ Exited status w' log.
Proof.
  split; [vm_compute; reflexivity|].
  apply (edit_cheatsheet_with_local_never_exits Sample.layered_world
           Sample2.read_only_config "tar").
  vm_compute. reflexivity.
Defined.

Lemma get_cheatpaths_shape_aux w cfg :
  get_cheatpaths w cfg =
    map (expand_entry w) (default [] (cheatpaths cfg))
    ++ (if isdir w (PosixPath.join (cwd w) ".cheat")
        then [Layer "local" (PosixPath.join (cwd w) ".cheat") (Some false)
                ["local"]]
        else []).
Proof.
  unfold get_cheatpaths, local_cheat, local_layer.
  destruct (cheatpaths cfg); simpl; destruct (isdir w _); simpl;
    rewrite ?app_nil_r; reflexivity.
Qed.

(** X4. Configured paths that do not start with [~] are taken as they
    are: the path set is the configured list, followed by the local
    layer when there is one. *)
Theorem get_cheatpaths_without_tilde
    (w : world) (cps : list layer) (ed vi : option string) :
  Forall (λ cp, startswith (path cp) "~" = false) cps →
  get_cheatpaths w (Config (Some cps) ed vi)
  = cps ++ (if isdir w (PosixPath.join (cwd w) ".cheat")
            then [Layer "local" (PosixPath.join (cwd w) ".cheat")
                    (Some false) ["local"]]
            else []).
Proof.
  intros Hcps. rewrite get_cheatpaths_shape_aux. f_equal. simpl.
  induction Hcps as [|cp l Hcp _ IH]; simpl; [done|].
  rewrite IH. f_equal. unfold expand_entry.
  rewrite (expanduser_plain w _ Hcp). by destruct cp.
Qed.

Lemma get_cheatpaths_without_tilde_witness :
  Forall (λ cp, startswith (path cp) "~" = false)
    [Sample.global_ro; Sample.work_rw]
  ∧ get_cheatpaths Sample.tar_world
      (Config (Some [Sample.global_ro; Sample.work_rw]) None None)
    = [Sample.global_ro; Sample.work_rw]
      ++ (if isdir Sample.tar_world
               (PosixPath.join (cwd Sample.tar_world) ".cheat")
          then [Layer "local" (PosixPath.join (cwd Sample.tar_world) ".cheat")
                  (Some false) ["local"]]
          else []).
Proof.
  assert (H : Forall (λ cp, startswith (path cp) "~" = false)
                [Sample.global_ro; Sample.work_rw]).
  { repeat constructor. }
  split; [exact H|].
  exact (get_cheatpaths_without_tilde Sample.tar_world
           [Sample.global_ro; Sample.work_rw] None None H).
Defined.

(** ** Aggregator *)

Lemma list_cheatsheets_ext w paths paths' f f' :
  (∀ s, s ∈ added w paths f ↔ s ∈ added w paths' f') →
  list_cheatsheets w paths f = list_cheatsheets w paths' f'.
Proof.
  intros H. unfold list_cheatsheets. do 2 f_equal.
  apply set_eq. intros s. by rewrite !elem_of_list_to_set.
Qed.

(** X5. The listing depends only on which layers are in the path set,
    not on their order or on repetitions. *)
Theorem list_cheatsheets_order_irrelevant
    (w : world) (paths paths' : list layer) (filter_path_name : option string) :
  (∀ e, e ∈ paths ↔ e ∈ paths') →
  list_cheatsheets w paths filter_path_name
  = list_cheatsheets w paths' filter_path_name.
Proof.
  intros H. apply list_cheatsheets_ext. intros s. rewrite !elem_of_added.
  split; intros (e & root & file & He & Hrest); exists e, root, file;
    (split; [by apply H|done]).
Qed.

Lemma list_cheatsheets_order_irrelevant_witness :
  (∀ e, e ∈ [Sample.global_ro; Layer "work" "/w" None []]
        ↔ e ∈ [Layer "work" "/w" None []; Sample.global_ro;
               Layer "work" "/w" None []])
  ∧ list_cheatsheets Sample.layered_world
      [Sample.global_ro; Layer "work" "/w" None []] None
    = list_cheatsheets Sample.layered_world
        [Layer "work" "/w" None []; Sample.global_ro;
         Layer "work" "/w" None []] None.
Proof.
  assert (H : ∀ e, e ∈ [Sample.global_ro; Layer "work" "/w" None []]
                   ↔ e ∈ [Layer "work" "/w" None []; Sample.global_ro;
                          Layer "work" "/w" None []]).
  { intros e. rewrite !elem_of_cons, !elem_of_nil. tauto. }
  split; [exact H|].
  exact (list_cheatsheets_order_irrelevant Sample.layered_world _ _ None H).
Defined.

(** X6. An empty filter name filters nothing; any other filter name
    gives the listing of the layers with that name. *)
Theorem list_cheatsheets_filter
    (w : world) (paths : list layer) (f : string) :
  list_cheatsheets w paths (Some f)
  = if String.eqb f "" then list_cheatsheets w paths None
    else list_cheatsheets w (filter (λ e, name e = f) paths) None.
Proof.
  destruct (String.eqb_spec f "") as [->|Hf].
  - apply list_cheatsheets_ext. intros s. by rewrite !elem_of_added.
  - apply list_cheatsheets_ext. intros s. rewrite !elem_of_added.
    apply String.eqb_neq in Hf.
    split; intros (e & root & file & He & Hfo & Hrest); exists e, root, file.
    + split; [|done]. apply list_elem_of_filter. split; [|done].
      unfold filtered_out in Hfo. rewrite Hf in Hfo. simpl in Hfo.
      apply negb_false_iff, String.eqb_eq in Hfo. done.
    + apply list_elem_of_filter in He as [Hn He]. split; [done|].
      split; [|done]. unfold filtered_out. rewrite Hf. simpl.
      apply negb_false_iff, String.eqb_eq. done.
Qed.

Lemma added_app w l1 l2 f : added w (l1 ++ l2) f = added w l1 f ++ added w l2 f.
Proof. unfold added. by rewrite bind_app. Qed.

Lemma search_hits_app w term l1 l2 :
  search_hits w term (l1 ++ l2) = search_hits w term l1 ++ search_hits w term l2.
Proof. unfold search_hits. by rewrite bind_app. Qed.

(** X7. A layer whose path is not an existing directory contributes
    nothing to the listing or to a search. *)
Theorem missing_directory_is_empty_layer
    (w : world) (l1 l2 : list layer) (e : layer)
    (filter_path_name : option string) (term : string) :
  isdir w (path e) = false →
  list_cheatsheets w (l1 ++ e :: l2) filter_path_name
  = list_cheatsheets w (l1 ++ l2) filter_path_name
  ∧ search_cheatsheets w term (l1 ++ e :: l2)
    = search_cheatsheets w term (l1 ++ l2).
Proof.
  intros Hd. split.
  - unfold list_cheatsheets. do 3 f_equal.
    change (e :: l2) with ([e] ++ l2). rewrite !added_app. f_equal.
    unfold added at 1. simpl. rewrite Hd.
    by destruct (filtered_out filter_path_name e).
  - unfold search_cheatsheets.
    change (e :: l2) with ([e] ++ l2). rewrite !search_hits_app.
    unfold search_hits at 2 5. simpl. by rewrite Hd.
Qed.

Lemma missing_directory_is_empty_layer_witness :
  isdir Sample.tar_world (path Sample2.nowhere) = false
  ∧ list_cheatsheets Sample.tar_world
      ([Sample.global_ro] ++ Sample2.nowhere :: [Sample.work_rw]) None
    = list_cheatsheets Sample.tar_world
        ([Sample.global_ro] ++ [Sample.work_rw]) None
  ∧ search_cheatsheets Sample.tar_world "xzf"
      ([Sample.global_ro] ++ Sample2.nowhere :: [Sample.work_rw])
    = search_cheatsheets Sample.tar_world "xzf"
        ([Sample.global_ro] ++ [Sample.work_rw]).
Proof.
  split; [vm_compute; reflexivity|].
  apply (missing_directory_is_empty_layer Sample.tar_world [Sample.global_ro]
           [Sample.work_rw] Sample2.nowhere None "xzf").
  vm_compute. reflexivity.
Defined.

(** X8. The hits are printed layer by layer, in the order of the path
    set: searching a concatenation prints the lines of the first part,
    then those of the second, and finds something when either does. *)
Theorem search_cheatsheets_app
    (w : world) (term : string) (l1 l2 : list layer) :
  search_cheatsheets w term (l1 ++ l2)
  = ((search_cheatsheets w term l1).1 ++ (search_cheatsheets w term l2).1,
     (search_cheatsheets w term l1).2 || (search_cheatsheets w term l2).2).
Proof.
  unfold search_cheatsheets. simpl. rewrite search_hits_app, fmap_app.
  f_equal. destruct (search_hits w term l1), (search_hits w term l2); done.
Qed.

Lemma file_hits_from term sheet n lines :
  let hits :=
    imap (λ i line, (n + i, line)) lines ≫= λ '(i, line),
      if contains (lower line) (lower term)
      then [Hit sheet (i + 1) (strip line)] else [] in
  Forall (λ h, (n < hit_line h ≤ n + length lines)%nat) hits
  ∧ StronglySorted (λ a b, (hit_line a < hit_line b)%nat) hits.
Proof.
  revert n. induction lines as [|line lines IH]; intros n; simpl.
  - split; constructor.
  - destruct (IH (S n)) as [Hb Hs].
    rewrite (imap_ext _ (λ i l, (S n + i, l)))
      by (intros i x _; unfold compose; f_equal; lia).
    set (rest := imap _ lines ≫= _) in *.
    assert (Hb' : Forall (λ h, (n < hit_line h ≤ n + S (length lines))%nat)
                    rest).
    { eapply Forall_impl; [exact Hb|]. simpl. intros h. lia. }
    destruct (contains (lower line) (lower term)); simpl.
    + split.
      * constructor; [simpl; lia|done].
      * constructor; [done|].
        eapply Forall_impl; [exact Hb|]. simpl. intros h. lia.
    + done.
Qed.

(** X9. Within one file the hits come in line order: the line numbers
    increase strictly, from 1 up to the number of lines at most. *)
Theorem file_hits_line_numbers (term sheet : string) (lines : list string) :
  Forall (λ h, (1 ≤ hit_line h ≤ length lines)%nat)
    (file_hits term sheet lines)
  ∧ StronglySorted (λ a b, (hit_line a < hit_line b)%nat)
      (file_hits term sheet lines).
Proof.
  destruct (file_hits_from term sheet 0 lines) as [Hb Hs]. split.
  - eapply Forall_impl; [exact Hb|]. simpl. intros h. lia.
  - exact Hs.
Qed.

(** X10. Only the lower-cased term matters: two terms that differ in
    case only give the same output. *)
Theorem search_cheatsheets_term_case
    (w : world) (t1 t2 : string) (paths : list layer) :
  lower t1 = lower t2 →
  search_cheatsheets w t1 paths = search_cheatsheets w t2 paths.
Proof.
  intros H. unfold search_cheatsheets, search_hits, file_hits. by rewrite H.
Qed.

Lemma search_cheatsheets_term_case_witness :
  lower "TAR -xZf" = lower "tar -XZF"
  ∧ search_cheatsheets Sample.tar_world "TAR -xZf" [Sample.global_ro]
    = search_cheatsheets Sample.tar_world "tar -XZF" [Sample.global_ro].
Proof.
  split; [reflexivity|].
  exact (search_cheatsheets_term_case Sample.tar_world "TAR -xZf" "tar -XZF"
           [Sample.global_ro] eq_refl).
Defined.

(** X11. Every sheet name a search reports is a name the unfiltered
    listing shows. *)
Theorem search_names_are_listed
    (w : world) (term : string) (paths : list layer) :
  Forall (λ h, hit_sheet h ∈ list_cheatsheets w paths None)
    (search_hits w term paths).
Proof.
  apply Forall_forall. intros h Hh.
  apply elem_of_search_hits in Hh
    as (e & root & file & text & i & line & He & Hd & Hw & Hf & _ & _ & _ & ->).
  apply elem_of_list_cheatsheets, elem_of_added.
  exists e, root, file. done.
Qed.

(** ** WriteRouter *)

(** Storing a new empty directory adds no regular file. *)
Lemma get_put_dir_file r k r' q m d :
  put r k (Dir []) = Some r' → get r k = None →
  get r' q = Some (File m d) → get r q = Some (File m d).
Proof.
  revert r r' q. induction k as [|c k IH]; intros r r' q Hput Hk Hq; [done|].
  destruct r as [|es]; [done|].
  destruct (put_dir _ _ _ _ _ Hput) as [es' ->].
  destruct q as [|c2 q]; [done|].
  cbn [get] in Hq, Hk |- *. cbn [put] in Hput.
  destruct (decide (c = c2)) as [<-|Hc].
  - destruct k as [|c' k].
    + injection Hput as <-. rewrite assoc_set_entry_eq in Hq.
      by destruct q.
    + destruct (assoc c es) as [ch|] eqn:Ech; [|done].
      destruct (put ch (c' :: k) (Dir [])) as [ch'|] eqn:E; [|done].
      injection Hput as <-. rewrite assoc_set_entry_eq in Hq.
      by apply (IH ch ch').
  - assert (assoc c2 es' = assoc c2 es) as <-; [|done].
    destruct k as [|c' k].
    + injection Hput as <-. by apply assoc_set_entry_ne.
    + destruct (assoc c es) as [ch|]; [|done].
      destruct (put ch (c' :: k) (Dir [])); [|done].
      injection Hput as <-. by apply assoc_set_entry_ne.
Qed.

Lemma makedirs_from_no_new_file r cur comps r' k m d :
  makedirs_from r cur comps = Some r' →
  get r' k = Some (File m d) → get r k = Some (File m d).
Proof.
  revert r cur. induction comps as [|c comps IH]; intros r cur; simpl.
  - by intros [= <-].
  - destruct (_ || _).
    { destruct (is_dir_at r cur); [apply IH|done]. }
    destruct (String.eqb c "..").
    { destruct (is_dir_at r cur); [apply IH|done]. }
    destruct (get r (cur ++ [c])) as [[m0 d0|es]|] eqn:Eg; [done|apply IH|].
    destruct (put r (cur ++ [c]) (Dir [])) as [r1|] eqn:Ep; [|done].
    intros Hm Hk. apply (get_put_dir_file _ _ _ _ _ _ Ep Eg).
    by apply (IH r1 (cur ++ [c])).
Qed.

(** X12. A name that is not found is routed to the first writable
    layer: the directories of the layer path joined with the name are
    made, the editor is started on that path with no extension added,
    and no regular file is created, changed or removed. *)
Theorem edit_cheatsheet_new_sheet
    (w w1 : world) (cheatname : string) (cfg : config)
    (pre post : list layer) (t : layer) :
  let paths := pre ++ t :: post in
  let target := PosixPath.join (path t) cheatname in
  find_cheatsheet w cheatname paths = None →
  Forall (λ x, is_readonly x = true) pre →
  is_readonly t = false →
  makedirs w (PosixPath.dirname target) = Some w1 →
  edit_cheatsheet w cheatname paths cfg
  = Returned w1 [Call (the_editor w cfg +:+ " '" +:+ target +:+ "'")]
  ∧ isdir w1 (PosixPath.dirname target) = true
  ∧ (∀ q m d, stat w q = Some (File m d) → stat w1 q = Some (File m d))
  ∧ (∀ k m d, get (root w1) k = Some (File m d)
              ↔ get (root w) k = Some (File m d)).
Proof.
  intros paths target Hf Hpre Ht Hmk.
  destruct (makedirs_spec w _ w1 Hmk) as [Hdir Hkeep].
  split; [|split; [done|split; [done|]]].
  - unfold edit_cheatsheet. rewrite Hf. unfold paths.
    rewrite (first_writable_split pre t post Hpre Ht).
    fold target. by rewrite Hmk.
  - intros k m d. unfold makedirs in Hmk.
    destruct (String.eqb _ ""); [done|].
    destruct (makedirs_from (root w) [] _) as [r'|] eqn:Em; [|done].
    injection Hmk as <-.
    destruct (makedirs_from_keeps _ _ _ _ Em) as [Hd Hfile].
    assert (Hr : ∃ es', r' = Dir es').
    { specialize (Hd [] eq_refl). apply is_dir_at_get in Hd as [es' [= ->]].
      eauto. }
    destruct Hr as [es' ->].
    change (root (with_root w (Dir es'))) with (Dir es'). split.
    + by apply (makedirs_from_no_new_file _ _ _ _ _ _ _ Em).
    + apply Hfile.
Qed.

Lemma edit_cheatsheet_new_sheet_witness :
  find_cheatsheet Sample.branch_world "git/log"
    ([Sample.global_ro] ++ Sample.work_rw :: [Sample.personal]) = None
  ∧ Forall (λ x, is_readonly x = true) [Sample.global_ro]
  ∧ is_readonly Sample.work_rw = false
  ∧ makedirs Sample.branch_world
      (PosixPath.dirname (PosixPath.join (path Sample.work_rw) "git/log"))
    = Some Sample.branch_world_git
  ∧ edit_cheatsheet Sample.branch_world "git/log"
      ([Sample.global_ro] ++ Sample.work_rw :: [Sample.personal])
      Sample.no_config
    = Returned Sample.branch_world_git
        [Call (the_editor Sample.branch_world Sample.no_config +:+ " '"
               +:+ PosixPath.join (path Sample.work_rw) "git/log" +:+ "'")]
  ∧ isdir Sample.branch_world_git
      (PosixPath.dirname (PosixPath.join (path Sample.work_rw) "git/log"))
    = true
  ∧ (∀ q m d, stat Sample.branch_world q = Some (File m d) →
              stat Sample.branch_world_git q = Some (File m d))
  ∧ (∀ k m d, get (root Sample.branch_world_git) k = Some (File m d)
              ↔ get (root Sample.branch_world) k = Some (File m d)).
Proof.
  assert (H2 : Forall (λ x, is_readonly x = true) [Sample.global_ro]).
  { constructor; [reflexivity|constructor]. }
  split; [vm_compute; reflexivity|]. split; [exact H2|].
  split; [reflexivity|]. split; [vm_compute; reflexivity|].
  exact (edit_cheatsheet_new_sheet Sample.branch_world Sample.branch_world_git
           "git/log" Sample.no_config [Sample.global_ro] [Sample.personal]
           Sample.work_rw ltac:(vm_compute; reflexivity) H2 eq_refl
           ltac:(vm_compute; reflexivity)).
Defined.

(** What a successful [copy2] did: one regular file stored at one
    location, which held no directory and is not the source. *)
Lemma copy2_inv w src dst w' :
  copy2 w src dst = Some w' →
  ∃ k m d es',
    stat w src = Some (File m d)
    ∧ k ≠ []
    ∧ not_dir (get (root w) k)
    ∧ locate w src ≠ Some k
    ∧ put (root w) k (File m d) = Some (Dir es')
    ∧ w' = with_root w (Dir es').
Proof.
  unfold copy2.
  set (dst' := if isdir w dst then _ else _).
  destruct (samefile w src dst') eqn:Hsf; [done|].
  destruct (stat w src) as [[m d|]|] eqn:Hsrc; [|done..].
  destruct (locate w dst') as [[|c k]|] eqn:Hk; [done| |done].
  assert (Hnk : not_dir (get (root w) (c :: k)) ∨
                ∃ es0, get (root w) (c :: k) = Some (Dir es0)).
  { destruct (get (root w) (c :: k)) as [[m0 d0|es0]|]; [by left|eauto|by left]. }
  destruct Hnk as [Hnk|[es0 Eg]]; [|by rewrite Eg].
  assert (Hne : locate w src ≠ Some (c :: k)).
  { intros Hs. unfold samefile in Hsf. rewrite Hs, Hk in Hsf.
    unfold stat in Hsrc. rewrite Hs in Hsrc. rewrite Hsrc in Hsf.
    by rewrite bool_decide_eq_true_2 in Hsf. }
  destruct (put (root w) (c :: k) (File m d)) as [r'|] eqn:Hput.
  - destruct (put_dir _ _ _ _ _ Hput) as [es' ->].
    intros Hw. exists (c :: k), m, d, es'.
    split; [done|]. split; [done|]. split; [done|]. split; [done|].
    split; [done|].
    destruct (get (root w) (c :: k)) as [[m0 d0|es0]|]; congruence.
  - by destruct (get (root w) (c :: k)) as [[m0 d0|es0]|].
Qed.

(** Storing a regular file at [k] keeps every regular file located
    elsewhere. *)
Lemma put_file_keeps w k x es' q m d :
  put (root w) k x = Some (Dir es') → not_dir (get (root w) k) →
  stat w q = Some (File m d) → locate w q ≠ Some k →
  stat (with_root w (Dir es')) q = Some (File m d).
Proof.
  intros Hput Hnk Hq Hne. unfold stat, locate in *.
  destruct (String.eqb q ""); [done|].
  change (comps_of (with_root w (Dir es')) q) with (comps_of w q).
  change (root (with_root w (Dir es'))) with (Dir es').
  destruct (walk_comps (root w) [] (comps_of w q)) as [kq|] eqn:Eq; [|done].
  rewrite (walk_comps_mono _ (Dir es') _ _ _
             (λ q', is_dir_at_put _ _ _ _ q' Hput Hnk) Eq).
  apply (get_put_file _ _ _ _ _ _ _ Hput Hnk); [congruence|done].
Qed.



(** X14. Editing writes at most one location: when the command
    returns, every regular file that is not at that location has the
    content and modification time it had. *)
Theorem edit_cheatsheet_writes_one_location
    (w w' : world) (cheatname : string) (paths : list layer) (cfg : config)
    (log : list event) :
  edit_cheatsheet w cheatname paths cfg = Returned w' log →
  ∃ written : option key,
    ∀ q m d, stat w q = Some (File m d) → locate w q ≠ written →
             stat w' q = Some (File m d).
Proof.
  unfold edit_cheatsheet.
  destruct (find_cheatsheet w cheatname paths) as [[e full]|].
  - destruct (negb (is_readonly e)).
    { intros [= <- _]. by exists None. }
    destruct (first_writable paths) as [t|]; [|done].
    destruct (makedirs w _) as [w1|] eqn:Hmk; [|done].
    destruct (copy2 w1 full _) as [w2|] eqn:Hcp; [|done].
    intros [= <- _].
    destruct (makedirs_spec w _ w1 Hmk) as [_ Hkeep].
    destruct (copy2_inv _ _ _ _ Hcp)
      as (k & m' & d' & es' & Hsrc & _ & Hnk & _ & Hput & ->).
    exists (Some k). intros q m d Hq Hne.
    apply (put_file_keeps w1 k (File m' d') es'); [done|done|by apply Hkeep|].
    intros Hk. apply Hne. etrans; [|exact Hk]. symmetry.
    (* a regular file of [w] is located in [w1] where it was in [w] *)
    unfold makedirs in Hmk. destruct (String.eqb _ ""); [done|].
    destruct (makedirs_from (root w) [] _) as [r'|] eqn:Em; [|done].
    injection Hmk as <-.
    destruct (makedirs_from_keeps _ _ _ _ Em) as [Hd _].
    assert (Hr : ∃ es1, r' = Dir es1).
    { specialize (Hd [] eq_refl). apply is_dir_at_get in Hd as [es1 [= ->]].
      eauto. }
    destruct Hr as [es1 ->].
    unfold stat in Hq. unfold locate in *.
    destruct (String.eqb q ""); [done|].
    change (comps_of (with_root w (Dir es1)) q) with (comps_of w q).
    change (root (with_root w (Dir es1))) with (Dir es1).
    destruct (walk_comps (root w) [] (comps_of w q)) as [kq|] eqn:Eq; [|done].
    by rewrite (walk_comps_mono _ _ _ _ _ Hd Eq).
  - destruct (first_writable paths) as [t|]; [|done].
    destruct (makedirs w _) as [w1|] eqn:Hmk; [|done].
    intros [= <- _]. exists None. intros q m d Hq _.
    by apply (proj2 (makedirs_spec w _ w1 Hmk)).
Qed.

Lemma edit_cheatsheet_writes_one_location_witness :
  edit_cheatsheet Sample.foo_world "foo" [Sample.global_ro; Sample.work_rw]
    Sample.no_config
  = Returned
      (World [("g", Dir [("foo.md", File 5 "foo sheet")]);
              ("w", Dir [("foo.md", File 5 "foo sheet")])] "/" [] "u" [])
      [Stdout "Path 'global' is read-only. Copying to personal path...";
       Stdout "Copied to /w/foo.md"; Call "vi '/w/foo.md'"]
  ∧ ∃ written : option key,
      ∀ q m d, stat Sample.foo_world q = Some (File m d) →
               locate Sample.foo_world q ≠ written →
               stat (World [("g", Dir [("foo.md", File 5 "foo sheet")]);
                            ("w", Dir [("foo.md", File 5 "foo sheet")])]
                           "/" [] "u" []) q
               = Some (File m d).
Proof.
  split; [vm_compute; reflexivity|].
  apply (edit_cheatsheet_writes_one_location Sample.foo_world _ "foo"
           [Sample.global_ro; Sample.work_rw] Sample.no_config
           [Stdout "Path 'global' is read-only. Copying to personal path...";
            Stdout "Copied to /w/foo.md"; Call "vi '/w/foo.md'"]).
  vm_compute. reflexivity.
Defined.

(** The location written may hold a sheet already: with the writable
    layer listed before the read-only one, the copy replaces the
    writable layer's own [tar.md]. *)
Example edit_copy_replaces_existing :
  let w := World [("w", Dir [("tar.md", File 9 "my notes")]);
                  ("g", Dir [("tar.md", File 1 "stock")])] "/" [] "u" [] in
  edit_cheatsheet w "tar" [Sample.work_rw; Sample.global_ro] Sample.no_config
  = Returned
      (World [("w", Dir [("tar.md", File 1 "stock")]);
              ("g", Dir [("tar.md", File 1 "stock")])] "/" [] "u" [])
      [Stdout "Path 'global' is read-only. Copying to personal path...";
       Stdout "Copied to /w/tar.md"; Call "vi '/w/tar.md'"].
Proof. vm_compute. reflexivity. Qed.

(** ** The command line *)

(** X15. Viewing a name that no layer has prints the "not found"
    message and exits with status 1; no pager is started. *)
Theorem view_cheatsheet_not_found
    (w : world) (cheatname : string) (paths : list layer) (cfg : config) :
  Forall (λ e, ¬ has_sheet w e cheatname) paths →
  view_cheatsheet w cheatname paths cfg
  = Exited 1 w [Stdout ("No cheatsheet found for '" +:+ cheatname +:+ "'.")].
Proof.
  intros H. unfold view_cheatsheet.
  assert (Hf : find_cheatsheet w cheatname paths = None).
  { apply find_in_none, Forall_reverse.
    eapply Forall_impl; [exact H|]. intros e. by rewrite probe_no_sheet. }
  by rewrite Hf.
Qed.

Lemma view_cheatsheet_not_found_witness :
  Forall (λ e, ¬ has_sheet Sample.tar_world e "zip") [Sample.global_ro]
  ∧ view_cheatsheet Sample.tar_world "zip" [Sample.global_ro] Sample.no_config
    = Exited 1 Sample.tar_world
        [Stdout ("No cheatsheet found for '" +:+ "zip" +:+ "'.")].
Proof.
  assert (H : Forall (λ e, ¬ has_sheet Sample.tar_world e "zip")
                [Sample.global_ro]).
  { constructor; [|constructor]. apply probe_no_sheet. vm_compute. reflexivity. }
  split; [exact H|].
  exact (view_cheatsheet_not_found Sample.tar_world "zip" [Sample.global_ro]
           Sample.no_config H).
Defined.

(** X16. Viewing opens what the lookup of editing would resolve: the
    sheet of the most local layer that has it, in the pager of the
    configuration, else of [PAGER], else [less]; the filesystem is not
    touched. *)
Theorem view_cheatsheet_found
    (w : world) (cheatname : string) (cfg : config)
    (globals locals : list layer) (e : layer) :
  has_sheet w e cheatname →
  Forall (λ l, ¬ has_sheet w l cheatname) locals →
  ∃ p, find_cheatsheet w cheatname (globals ++ e :: locals) = Some (e, p)
       ∧ view_cheatsheet w cheatname (globals ++ e :: locals) cfg
         = Returned w
             [Call (default (default "less" (getenv w "PAGER")) (viewer cfg)
                    +:+ " '" +:+ p +:+ "'")].
Proof.
  intros He Hl.
  destruct (proj2 (probe_has_sheet w cheatname e) He) as [p Hp].
  assert (Hf : find_cheatsheet w cheatname (globals ++ e :: locals)
               = Some (e, p)).
  { apply find_cheatsheet_split; [done|].
    eapply Forall_impl; [exact Hl|]. intros l. by rewrite probe_no_sheet. }
  exists p. split; [done|]. unfold view_cheatsheet. rewrite Hf.
  unfold the_viewer, launch.
  destruct (viewer cfg); [done|]. by destruct (getenv w "PAGER").
Qed.

Lemma view_cheatsheet_found_witness :
  has_sheet Sample.layered_world (Layer "work" "/w" None []) "tar"
  ∧ Forall (λ l, ¬ has_sheet Sample.layered_world l "tar") [Sample.personal]
  ∧ ∃ p, find_cheatsheet Sample.layered_world "tar"
           ([Sample.global_ro] ++ Layer "work" "/w" None [] :: [Sample.personal])
         = Some (Layer "work" "/w" None [], p)
       ∧ view_cheatsheet Sample.layered_world "tar"
           ([Sample.global_ro] ++ Layer "work" "/w" None [] :: [Sample.personal])
           Sample.no_config
         = Returned Sample.layered_world
             [Call (default (default "less"
                               (getenv Sample.layered_world "PAGER"))
                      (viewer Sample.no_config)
                    +:+ " '" +:+ p +:+ "'")].
Proof.
  assert (H1 : has_sheet Sample.layered_world (Layer "work" "/w" None []) "tar").
  { split; [vm_compute; reflexivity|right; vm_compute; discriminate]. }
  assert (H2 : Forall (λ l, ¬ has_sheet Sample.layered_world l "tar")
                 [Sample.personal]).
  { constructor; [|constructor].
    apply probe_no_sheet. vm_compute. reflexivity. }
  split; [exact H1|]. split; [exact H2|].
  exact (view_cheatsheet_found Sample.layered_world "tar" Sample.no_config
           [Sample.global_ro] [Sample.personal] (Layer "work" "/w" None [])
           H1 H2).
Defined.

Section Main.

Variable safe_load : string → string + config.
Variable w : world.

Lemma load_config_missing p :
  lexists w p = false →
  load_config safe_load w p
  = Stopped (Exited 1 w [Stdout ("Configuration file not found: " +:+ p)]).
Proof. intros H. unfold load_config. by rewrite H. Qed.

End Main.

(** X17. A configuration file named with [--conf] that does not exist
    ends the run with status 1 and the "not found" message, before any
    command is looked at; there is no fall-back to [conf.yml] for a
    path other than the default. *)
Theorem main_missing_conf
    (safe_load : string → string + config) (w : world) (a : args) (c : string) :
  arg_conf a = Some c →
  c ≠ default_conf w →
  lexists w c = false →
  main safe_load w a
  = Done (Exited 1 w [Stdout ("Configuration file not found: " +:+ c)]).
Proof.
  intros Hc Hne Hex. unfold main, config_path_of. rewrite Hc.
  apply String.eqb_neq in Hne. rewrite Hne. simpl.
  by rewrite load_config_missing.
Qed.

Lemma main_missing_conf_witness :
  arg_conf (Args (Some "tar") true false None None false (Some "/etc/none.yml"))
  = Some "/etc/none.yml"
  ∧ "/etc/none.yml" ≠ default_conf Sample2.conf_world
  ∧ lexists Sample2.conf_world "/etc/none.yml" = false
  ∧ main Sample2.sample_load Sample2.conf_world
      (Args (Some "tar") true false None None false (Some "/etc/none.yml"))
    = Done (Exited 1 Sample2.conf_world
              [Stdout ("Configuration file not found: " +:+ "/etc/none.yml")]).
Proof.
  assert (H2 : "/etc/none.yml" ≠ default_conf Sample2.conf_world).
  { vm_compute. discriminate. }
  split; [reflexivity|]. split; [exact H2|].
  split; [vm_compute; reflexivity|].
  exact (main_missing_conf Sample2.sample_load Sample2.conf_world
           (Args (Some "tar") true false None None false (Some "/etc/none.yml"))
           "/etc/none.yml" eq_refl H2 ltac:(vm_compute; reflexivity)).
Defined.

(** X18. Without [--conf], when the default configuration file does
    not exist and the working directory has a [conf.yml], the run is
    the one [--conf conf.yml] gives. *)
Theorem main_conf_fallback
    (safe_load : string → string + config) (w : world) (a : args) :
  arg_conf a = None →
  lexists w (default_conf w) = false →
  lexists w "conf.yml" = true →
  main safe_load w a
  = main safe_load w
      (Args (arg_cheatname a) (arg_edit a) (arg_list a) (arg_path a)
            (arg_search a) (arg_directories a) (Some "conf.yml")).
Proof.
  intros Hc Hd Hl. unfold main, config_path_of. simpl. rewrite Hc.
  rewrite String.eqb_refl, Hd, Hl. simpl. rewrite andb_false_r. done.
Qed.

Lemma main_conf_fallback_witness :
  arg_conf (Args (Some "tar") false false None None false None) = None
  ∧ lexists Sample2.conf_world (default_conf Sample2.conf_world) = false
  ∧ lexists Sample2.conf_world "conf.yml" = true
  ∧ main Sample2.sample_load Sample2.conf_world
      (Args (Some "tar") false false None None false None)
    = main Sample2.sample_load Sample2.conf_world
        (Args (Some "tar") false false None None false (Some "conf.yml")).
Proof.
  split; [reflexivity|]. split; [vm_compute; reflexivity|].
  split; [vm_compute; reflexivity|].
  exact (main_conf_fallback Sample2.sample_load Sample2.conf_world
           (Args (Some "tar") false false None None false None) eq_refl
           ltac:(vm_compute; reflexivity) ltac:(vm_compute; reflexivity)).
Defined.

Example main_view_with_fallback :
  main Sample2.sample_load Sample2.conf_world
    (Args (Some "tar") false false None None false None)
  = Done (Returned Sample2.conf_world [Call "less '/g/tar.md'"])
  ∧ main Sample2.sample_load Sample2.conf_world
      (Args (Some "tar") true false None None false (Some "/etc/cheat.yml"))
    = Done (Exited 1 Sample2.conf_world
              [Stdout "Path 'global' is read-only. Copying to personal path...";
               Stdout "Error: No writable cheatpath found."]).
Proof. split; vm_compute; reflexivity. Qed.

(** X19. The commands are tried in a fixed order: with [--directories]
    every other argument but [--conf] is ignored, and the layers are
    printed one per line, in the order of the path set; nothing is
    edited even when [--edit] is given. *)
Theorem main_directories_first
    (safe_load : string → string + config) (w : world) (a : args) :
  arg_directories a = true →
  main safe_load w a
  = main safe_load w (Args None false false None None true (arg_conf a))
  ∧ ∀ cfg, load_config safe_load w (config_path_of w a) = Loaded cfg →
      main safe_load w a
      = Done (Returned w
                (map (λ p, Stdout (name p +:+ ": " +:+ path p +:+ " (readonly: "
                                   +:+ (if is_readonly p then "True" else "False")
                                   +:+ ")"))
                     (get_cheatpaths w cfg))).
Proof.
  intros Hd. unfold main. split.
  - change (config_path_of w (Args None false false None None true (arg_conf a)))
      with (config_path_of w a).
    destruct (load_config safe_load w (config_path_of w a)); [|done].
    by rewrite Hd.
  - intros cfg ->. by rewrite Hd.
Qed.

Lemma main_directories_first_witness :
  arg_directories
    (Args (Some "tar") true true None (Some "x") true (Some "/etc/cheat.yml"))
  = true
  ∧ main Sample2.sample_load Sample2.conf_world
      (Args (Some "tar") true true None (Some "x") true (Some "/etc/cheat.yml"))
    = main Sample2.sample_load Sample2.conf_world
        (Args None false false None None true (Some "/etc/cheat.yml"))
  ∧ ∀ cfg,
      load_config Sample2.sample_load Sample2.conf_world
        (config_path_of Sample2.conf_world
           (Args (Some "tar") true true None (Some "x") true
                 (Some "/etc/cheat.yml")))
      = Loaded cfg →
      main Sample2.sample_load Sample2.conf_world
        (Args (Some "tar") true true None (Some "x") true (Some "/etc/cheat.yml"))
      = Done (Returned Sample2.conf_world
                (map (λ p, Stdout (name p +:+ ": " +:+ path p +:+ " (readonly: "
                                   +:+ (if is_readonly p then "True" else "False")
                                   +:+ ")"))
                     (get_cheatpaths Sample2.conf_world cfg))).
Proof.
  split; [reflexivity|].
  exact (main_directories_first Sample2.sample_load Sample2.conf_world
           (Args (Some "tar") true true None (Some "x") true
                 (Some "/etc/cheat.yml")) eq_refl).
Defined.

Example main_directories_lines :
  main Sample2.sample_load Sample2.conf_world
    (Args None false false None None true (Some "conf.yml"))
  = Done (Returned Sample2.conf_world
            [Stdout "global: /g (readonly: True)";
             Stdout "work: /w (readonly: False)"]).
Proof. vm_compute. reflexivity. Qed.

(** X20. An empty search term and an empty name count as not given. *)
Theorem main_empty_arguments
    (safe_load : string → string + config) (w : world)
    (name_ : option string) (e l d : bool) (p c : option string)
    (s : option string) :
  main safe_load w (Args name_ e l p (Some "") d c)
  = main safe_load w (Args name_ e l p None d c)
  ∧ main safe_load w (Args (Some "") e l p s d c)
    = main safe_load w (Args None e l p s d c).
Proof.
  unfold main, config_path_of. simpl. split.
  - by destruct (load_config safe_load w _).
  - destruct (load_config safe_load w _); [|done].
    destruct d, l, (truthy s), e; done.
Qed.

(** [--edit] without a name, when no command before it applies,
    stops with status 1 and changes nothing. *)
Theorem main_edit_needs_name
    (safe_load : string → string + config) (w : world) (a : args)
    (cfg : config) :
  load_config safe_load w (config_path_of w a) = Loaded cfg →
  arg_directories a = false → arg_list a = false →
  truthy (arg_search a) = false →
  arg_edit a = true →
  truthy (arg_cheatname a) = false →
  main safe_load w a
  = Done (Exited 1 w [Stdout "Error: Please specify a cheatsheet to edit."]).
Proof.
  intros Hc Hd Hl Hs He Hn. unfold main. by rewrite Hc, Hd, Hl, Hs, He, Hn.
Qed.

Lemma main_edit_needs_name_witness :
  load_config Sample2.sample_load Sample2.conf_world
    (config_path_of Sample2.conf_world
       (Args None true false None None false (Some "/etc/cheat.yml")))
  = Loaded (Config (Some [Sample.global_ro]) None None)
  ∧ main Sample2.sample_load Sample2.conf_world
      (Args None true false None None false (Some "/etc/cheat.yml"))
    = Done (Exited 1 Sample2.conf_world
              [Stdout "Error: Please specify a cheatsheet to edit."]).
Proof.
  split; [vm_compute; reflexivity|].
  exact (main_edit_needs_name Sample2.sample_load Sample2.conf_world
           (Args None true false None None false (Some "/etc/cheat.yml"))
           (Config (Some [Sample.global_ro]) None None)
           ltac:(vm_compute; reflexivity) eq_refl eq_refl eq_refl eq_refl
           eq_refl).
Defined.

(** ** The security check on plain names *)

Import Check.

Section PlainNames.

Lemma rev_app_app s acc : String.rev_app s acc = String.rev s +:+ acc.
Proof.
  unfold String.rev. revert acc.
  induction s as [|a s IH]; intros acc; simpl; [done|].
  rewrite (IH (String a acc)), (IH (String a "")).
  by rewrite app_assoc', app_cons.
Qed.

Lemma rev_snoc d c : String.rev (d +:+ String c "") = String c (String.rev d).
Proof.
  induction d as [|a d IH]; [done|].
  rewrite app_cons. unfold String.rev in *. simpl.
  rewrite (rev_app_app (d +:+ String c "")), (rev_app_app d).
  unfold String.rev. rewrite IH. by rewrite app_cons.
Qed.

Lemma snoc_view s : s = "" ∨ ∃ d c, s = d +:+ String c "".
Proof.
  induction s as [|a s [->|(d & c & ->)]]; [by left|right..].
  - by exists "", a.
  - exists (String a d), c. by rewrite app_cons.
Qed.

Lemma endswith_sep_snoc d c : endswith (d +:+ String c "") "/" = Ascii.eqb "/" c.
Proof.
  unfold endswith. rewrite rev_snoc.
  change (String.rev "/") with (String "/"%char "").
  by rewrite prefix_cons, prefix_nil, andb_true_r.
Qed.

Lemma endswith_sep_app x y : y ≠ "" → endswith (x +:+ y) "/" = endswith y "/".
Proof.
  intros Hy. destruct (snoc_view y) as [->|(d & c & ->)]; [done|].
  by rewrite <-app_assoc', !endswith_sep_snoc.
Qed.

Lemma app_empty_inv x y : x +:+ y = "" → y = "".
Proof. destruct x; [done|]. by rewrite app_cons. Qed.

Lemma sep_after_app x y : y ≠ "" → sep_after (x +:+ y) = sep_after y.
Proof.
  intros Hy. unfold sep_after. rewrite (endswith_sep_app x y Hy).
  destruct (String.eqb_spec (x +:+ y) "") as [E|_].
  { by apply app_empty_inv in E. }
  by destruct (String.eqb_spec y "").
Qed.

Lemma sep_after_cases a :
  (sep_after a = "" ∧ (a = "" ∨ ∃ d, a = d +:+ "/"))
  ∨ (sep_after a = "/" ∧ a ≠ "").
Proof.
  unfold sep_after. destruct (snoc_view a) as [->|(d & c & ->)].
  - left. by auto.
  - rewrite endswith_sep_snoc.
    assert (Hne : d +:+ String c "" ≠ "") by (by destruct d).
    apply String.eqb_neq in Hne as Hne'. rewrite Hne', orb_false_l.
    destruct (Ascii.eqb_spec "/" c) as [<-|Hc]; [left|right].
    + split; [done|]. right. by exists d.
    + split; [done|exact Hne].
Qed.

Lemma not_abs_plain cheatname :
  mem_char sep cheatname = false → PosixPath.isabs cheatname = false.
Proof.
  unfold PosixPath.isabs, startswith. destruct cheatname as [|a s]; [done|].
  simpl mem_char. intros [Ha _]%orb_false_elim.
  rewrite prefix_cons, prefix_nil, andb_true_r.
  by rewrite Ascii.eqb_sym.
Qed.

(** [os.path.join] with a relative second part. *)
Lemma join_rel a b :
  PosixPath.isabs b = false → PosixPath.join a b = a +:+ sep_after a +:+ b.
Proof.
  unfold PosixPath.join, PosixPath.isabs, sep_after. intros ->.
  by destruct (_ || _).
Qed.

Lemma isabs_join_rel a b :
  PosixPath.isabs a = false → PosixPath.isabs b = false →
  PosixPath.isabs (PosixPath.join a b) = false.
Proof.
  intros Ha Hb. rewrite join_rel by done.
  destruct (String.eqb_spec a "") as [->|Hne]; [done|].
  by rewrite isabs_app.
Qed.

Lemma join_assoc a b c :
  PosixPath.isabs b = false → PosixPath.isabs c = false →
  PosixPath.join a (PosixPath.join b c) = PosixPath.join (PosixPath.join a b) c.
Proof.
  intros Hb Hc.
  rewrite (join_rel a (PosixPath.join b c)) by (by apply isabs_join_rel).
  rewrite (join_rel b c), (join_rel a b), (join_rel _ c) by done.
  destruct (String.eqb_spec b "") as [->|Hne].
  - change (sep_after "") with "". change ("" +:+ ?x) with x.
    rewrite app_empty_r.
    assert (sep_after (a +:+ sep_after a) = "") as ->; [|by rewrite app_assoc'].
    destruct (sep_after_cases a) as [[Hs _]|[Hs _]].
    + by rewrite Hs, app_empty_r.
    + rewrite Hs. by rewrite sep_after_app.
  - assert (sep_after ((a +:+ sep_after a) +:+ b) = sep_after b) as Hs.
    { by apply sep_after_app. }
    rewrite <-!app_assoc', Hs. by rewrite !app_assoc'.
Qed.

Lemma prefix_app a b : String.prefix a (a +:+ b) = true.
Proof.
  induction a as [|x a IH]; [by rewrite prefix_nil|].
  by rewrite app_cons, prefix_cons, Ascii.eqb_refl.
Qed.

Lemma concat_snoc c cs x :
  cs ≠ [] → String.concat c (cs ++ [x]) = String.concat c cs +:+ c +:+ x.
Proof.
  induction cs as [|y cs IH]; [done|]. intros _.
  destruct cs as [|z cs]; [done|].
  change ((y :: z :: cs) ++ [x]) with (y :: (z :: cs) ++ [x]).
  change (String.concat c (y :: (z :: cs) ++ [x]))
    with (y +:+ c +:+ String.concat c ((z :: cs) ++ [x])).
  rewrite IH by done.
  change (String.concat c (y :: z :: cs))
    with (y +:+ c +:+ String.concat c (z :: cs)).
  by rewrite !app_assoc'.
Qed.

(** [normpath] of an absolute path. *)
Lemma normpath_abs p :
  PosixPath.isabs p = true →
  PosixPath.normpath p
  = (if Nat.eqb (initial_slashes p) 2 then "//" else "/")
    +:+ Str.join "/" (fold_left (PosixPath.norm_step (initial_slashes p))
                        (Str.split sep p) []).
Proof.
  unfold PosixPath.isabs, PosixPath.normpath, initial_slashes. intros Ha.
  rewrite Ha. destruct (String.eqb_spec p "") as [->|_]; [done|].
  by destruct (startswith p "//" && negb (startswith p "///")).
Qed.

(** Joining a plain name to an absolute path keeps the initial
    slashes. *)
Lemma initial_slashes_join p cheatname :
  PosixPath.isabs p = true → mem_char sep cheatname = false →
  initial_slashes (p +:+ sep_after p +:+ cheatname) = initial_slashes p.
Proof.
  unfold PosixPath.isabs, initial_slashes, startswith. intros Ha Hn.
  assert (Hname : ∀ q, String.prefix (String "/" q) cheatname = false).
  { intros q. destruct cheatname as [|a s]; [done|].
    cbn [mem_char] in Hn. apply orb_false_elim in Hn as [Ha' _].
    rewrite prefix_cons, Ascii.eqb_sym. fold sep. by rewrite Ha'. }
  destruct p as [|a p]; [done|].
  rewrite prefix_cons, prefix_nil, andb_true_r in Ha.
  apply Ascii.eqb_eq in Ha as <-.
  destruct p as [|b p].
  { change (sep_after "/") with "". change ("/" +:+ "" +:+ cheatname)
      with (String "/" cheatname).
    rewrite !prefix_cons, !Hname. done. }
  rewrite !app_cons, !prefix_cons. simpl (Ascii.eqb "/" "/").
  rewrite !andb_true_l.
  destruct (Ascii.eqb_spec "/" b) as [<-|Hb]; [|done].
  rewrite !andb_true_l, !prefix_nil.
  destruct p as [|c p].
  { change (sep_after "//") with "". change ("" +:+ "" +:+ cheatname)
      with cheatname.
    rewrite Hname. done. }
  by rewrite !app_cons, !prefix_cons, !prefix_nil.
Qed.

(** ... and adds at most the name to the components. *)
Lemma comps_join k p cheatname :
  p ≠ "" → mem_char sep cheatname = false →
  fold_left (PosixPath.norm_step k)
    (Str.split sep (p +:+ sep_after p +:+ cheatname)) []
  = PosixPath.norm_step k
      (fold_left (PosixPath.norm_step k) (Str.split sep p) []) cheatname.
Proof.
  intros Hp Hn. destruct (sep_after_cases p) as [[-> [->|[d ->]]]|[-> _]].
  - done.
  - change ("" +:+ cheatname) with cheatname.
    rewrite app_assoc', app_cons. change ("" +:+ cheatname) with cheatname.
    fold sep. rewrite !split_app_sep, (split_none sep cheatname) by done.
    change (Str.split sep "") with [""].
    rewrite !fold_left_app. done.
  - rewrite app_cons. change ("" +:+ cheatname) with cheatname.
    fold sep. rewrite split_app_sep, (split_none sep cheatname) by done.
    by rewrite fold_left_app.
Qed.

Lemma norm_step_plain k cs cheatname :
  cheatname ≠ ".." →
  PosixPath.norm_step k cs cheatname = cs
  ∨ PosixPath.norm_step k cs cheatname = cs ++ [cheatname].
Proof.
  intros Hn. unfold PosixPath.norm_step.
  destruct (_ || _); [by left|].
  apply String.eqb_neq in Hn. rewrite Hn. simpl. by right.
Qed.

Lemma normpath_join_prefix p cheatname :
  PosixPath.isabs p = true → plain cheatname →
  startswith (PosixPath.normpath (p +:+ sep_after p +:+ cheatname))
             (PosixPath.normpath p) = true.
Proof.
  intros Ha [Hs Hn].
  assert (Hp : p ≠ "") by (by intros ->).
  rewrite (normpath_abs p) by done.
  rewrite (normpath_abs (p +:+ sep_after p +:+ cheatname))
    by (by rewrite isabs_app).
  rewrite initial_slashes_join, comps_join by done.
  set (k := initial_slashes p).
  set (cs := fold_left (PosixPath.norm_step k) (Str.split sep p) []).
  set (pre := if Nat.eqb k 2 then "//" else "/").
  unfold startswith, Str.join.
  destruct (norm_step_plain k cs cheatname Hn) as [->| ->].
  - rewrite <-(app_empty_r (pre +:+ String.concat "/" cs)) at 2.
    apply prefix_app.
  - destruct cs as [|c cs'].
    + change (String.concat "/" []) with "".
      change (String.concat "/" ([] ++ [cheatname])) with cheatname.
      rewrite app_empty_r. apply prefix_app.
    + rewrite concat_snoc by done.
      rewrite <-(app_assoc' pre (String.concat "/" (c :: cs'))).
      apply prefix_app.
Qed.

End PlainNames.

Lemma inside_plain_name (w : world) (base_dir cheatname : string) :
  PosixPath.isabs (cwd w) = true →
  plain cheatname →
  inside w base_dir (PosixPath.join base_dir cheatname) = true.
Proof.
  intros Hcwd Hplain. pose proof Hplain as [Hs _].
  pose proof (not_abs_plain cheatname Hs) as Hrel.
  unfold inside, PosixPath.abspath.
  destruct (PosixPath.isabs base_dir) eqn:Hb.
  - assert (Hne : base_dir ≠ "") by (by intros ->).
    rewrite join_rel by done. rewrite isabs_app, Hb by done.
    by apply normpath_join_prefix.
  - rewrite isabs_join_rel by done.
    rewrite join_assoc by done.
    rewrite (join_rel (PosixPath.join (cwd w) base_dir)) by done.
    apply normpath_join_prefix; [|done].
    rewrite join_rel by done. rewrite isabs_app; [done|].
    intros E. by rewrite E in Hcwd.
Qed.


(** X21. The security check never rejects a plain name: for a layer
    directory of any form and a name without [/] other than [..], the
    normalised candidate starts with the normalised layer directory
    (the working directory being absolute, as [os.getcwd()] is); so a
    layer has the sheet exactly when the file or a match with an
    extension exists. *)
Theorem plain_name_passes_check (w : world) (e : layer) (cheatname : string) :
  PosixPath.isabs (cwd w) = true →
  plain cheatname →
  inside w (path e) (PosixPath.join (path e) cheatname) = true
  ∧ (is_Some (probe w cheatname e)
     ↔ isfile w (PosixPath.join (path e) cheatname) = true
       ∨ glob w (PosixPath.join (path e) cheatname +:+ ".*") ≠ []).
Proof.
  intros Hcwd Hplain.
  pose proof (inside_plain_name w (path e) cheatname Hcwd Hplain) as Hin.
  split; [done|]. rewrite probe_has_sheet. unfold has_sheet.
  split; [by intros [_ H]|by intros H].
Qed.

Lemma plain_name_passes_check_witness :
  PosixPath.isabs (cwd Sample.tar_world) = true
  ∧ plain "tar"
  ∧ inside Sample.tar_world (path (Layer "rel" "sheets/" None []))
      (PosixPath.join (path (Layer "rel" "sheets/" None [])) "tar") = true
  ∧ (is_Some (probe Sample.tar_world "tar" (Layer "rel" "sheets/" None []))
     ↔ isfile Sample.tar_world
         (PosixPath.join (path (Layer "rel" "sheets/" None [])) "tar") = true
       ∨ glob Sample.tar_world
           (PosixPath.join (path (Layer "rel" "sheets/" None [])) "tar"
            +:+ ".*") ≠ []).
Proof.
  assert (H2 : plain "tar") by (split; [reflexivity|discriminate]).
  split; [reflexivity|]. split; [exact H2|].
  exact (plain_name_passes_check Sample.tar_world
           (Layer "rel" "sheets/" None []) "tar" eq_refl H2).
Defined.

(** ** The files below a layer directory *)

Section Walk.

Lemma node_ind' (P : node → Prop) :
  (∀ m d, P (File m d)) →
  (∀ es, Forall (λ e, P e.2) es → P (Dir es)) →
  ∀ n, P n.
Proof.
  intros Hf Hd. fix IH 1. intros [m d|es]; [apply Hf|].
  apply Hd. induction es as [|[c ch] es IHes]; constructor.
  - apply IH.
  - apply IHes.
Qed.

Lemma existsb_eqb_false c (l : list string) :
  existsb (String.eqb c) l = false ↔ c ∉ l.
Proof.
  induction l as [|x l IH]; simpl.
  - split; [intros _; apply not_elem_of_nil|done].
  - rewrite orb_false_iff, IH, not_elem_of_cons, String.eqb_neq. done.
Qed.

Lemma well_formed_cons c ch es :
  well_formed (Dir ((c, ch) :: es))
  = valid_name c && negb (existsb (String.eqb c) (map fst es))
    && well_formed ch && well_formed (Dir es).
Proof. reflexivity. Qed.

Lemma well_formed_dir es :
  well_formed (Dir es) = true →
  NoDup (map fst es)
  ∧ ∀ c ch, (c, ch) ∈ es → valid_name c = true ∧ well_formed ch = true.
Proof.
  induction es as [|[c ch] es IH]; intros Hw.
  - split; [constructor|]. intros c ch H. by apply elem_of_nil in H.
  - rewrite well_formed_cons in Hw.
    apply andb_prop in Hw as [[[Hv Hn]%andb_prop Hc]%andb_prop Hes].
    destruct (IH Hes) as [Hnd Hall].
    apply negb_true_iff, existsb_eqb_false in Hn. split.
    + simpl. by constructor.
    + intros c' ch' [[= -> ->]|Hin]%elem_of_cons; [done|by apply Hall].
Qed.

Lemma assoc_elem_of {A} c (x : A) es : assoc c es = Some x → (c, x) ∈ es.
Proof.
  induction es as [|[c' y] es IH]; simpl; [done|].
  destruct (String.eqb_spec c c') as [->|Hne].
  - intros [= ->]. by left.
  - intros H. right. by apply IH.
Qed.

Lemma assoc_NoDup {A} c (x : A) es :
  NoDup (map fst es) → (c, x) ∈ es → assoc c es = Some x.
Proof.
  induction es as [|[c' y] es IH]; simpl.
  - intros _ H. by apply elem_of_nil in H.
  - intros [Hn Hnd]%NoDup_cons [[= -> ->]|Hin]%elem_of_cons.
    + by rewrite String.eqb_refl.
    + destruct (String.eqb_spec c c') as [->|Hne]; [|by apply IH].
      exfalso. apply Hn. apply list_elem_of_fmap. by exists (c', x).
Qed.

(** What [get] reaches in a well-formed tree is well formed, along
    valid names. *)
Lemma well_formed_get n k n' :
  well_formed n = true → get n k = Some n' →
  well_formed n' = true ∧ Forall (λ c, valid_name c = true) k.
Proof.
  revert n. induction k as [|c k IH]; intros n Hw Hg; simpl in Hg.
  - injection Hg as <-. by split.
  - destruct n as [m d|es]; [done|].
    destruct (assoc c es) as [ch|] eqn:Ea; [|done].
    apply assoc_elem_of in Ea.
    destruct (well_formed_dir es Hw) as [_ Hall].
    destruct (Hall c ch Ea) as [Hv Hc].
    destruct (IH ch Hc Hg) as [H1 H2]. split; [done|by constructor].
Qed.

Lemma elem_of_nondirs file es :
  file ∈ nondirs es ↔ ∃ m d, (file, File m d) ∈ es.
Proof.
  unfold nondirs. rewrite list_elem_of_fmap. split.
  - intros ([c n] & -> & [Hn Hin]%list_elem_of_filter).
    destruct n as [m d|]; [|done]. by exists m, d.
  - intros (m & d & Hin). exists (file, File m d). split; [done|].
    by apply list_elem_of_filter.
Qed.

(** The triples of [os.walk]: one for every directory below the top,
    named by joining the names on the way to it. *)
Lemma walk_node_elem top n root dirs files :
  well_formed n = true →
  (root, dirs, files) ∈ walk_node top n
  ↔ ∃ rel es, get n rel = Some (Dir es)
              ∧ root = fold_left PosixPath.join rel top
              ∧ dirs = subdirs es ∧ files = nondirs es.
Proof.
  intros Hw. split.
  - revert top Hw. induction n as [m d|es IH] using node_ind'; intros top Hw.
    { intros H. by apply elem_of_nil in H. }
    cbn [walk_node]. intros [[= -> -> ->]|Hin]%elem_of_cons.
    { by exists [], es. }
    apply list_elem_of_In, in_flat_map in Hin as ([c ch] & Hc & Hin).
    apply list_elem_of_In in Hc, Hin.
    destruct ch as [m d|es']; [by apply elem_of_nil in Hin|].
    destruct (well_formed_dir es Hw) as [Hnd Hall].
    destruct (Hall c _ Hc) as [_ Hch].
    rewrite Forall_forall in IH.
    destruct (IH _ Hc (PosixPath.join top c) Hch Hin)
      as (rel & es'' & Hg & -> & -> & ->).
    exists (c :: rel), es''. split; [|done].
    simpl. by rewrite (assoc_NoDup c (Dir es') es Hnd Hc).
  - intros (rel & es & Hg & -> & -> & ->). clear Hw.
    revert top n Hg. induction rel as [|c rel IH]; intros top n Hg.
    + simpl in Hg. injection Hg as ->. cbn [walk_node]. by left.
    + simpl in Hg. destruct n as [m d|es0]; [done|].
      destruct (assoc c es0) as [ch|] eqn:Ea; [|done].
      apply assoc_elem_of in Ea.
      cbn [walk_node]. right.
      apply list_elem_of_In, in_flat_map. exists (c, ch).
      split; [by apply list_elem_of_In|]. apply list_elem_of_In.
      destruct ch as [m d|es1].
      * destruct rel; done.
      * apply (IH (PosixPath.join top c) (Dir es1) Hg).
Qed.

End Walk.

(** ** Names relative to the layer directory *)

Section Relative.

Lemma valid_name_inv c :
  valid_name c = true →
  c ≠ "" ∧ c ≠ "." ∧ c ≠ ".." ∧ mem_char sep c = false.
Proof.
  unfold valid_name.
  intros [[[H1 H2]%andb_prop H3]%andb_prop H4]%andb_prop.
  apply negb_true_iff in H1, H2, H3, H4.
  by apply String.eqb_neq in H1, H2, H3.
Qed.

Lemma norm_step_valid k cs c :
  valid_name c = true → PosixPath.norm_step k cs c = cs ++ [c].
Proof.
  intros (H1 & H2 & H3 & _)%valid_name_inv. unfold PosixPath.norm_step.
  apply String.eqb_neq in H1, H2, H3. by rewrite H1, H2, H3.
Qed.

Lemma split_sep_free c s : Forall (λ x, mem_char c x = false) (Str.split c s).
Proof.
  induction s as [|a s IH]; simpl; [by constructor|].
  destruct (Ascii.eqb a c) eqn:E; [by constructor|].
  destruct (Str.split c s) as [|h t].
  - constructor; [|done]. simpl. by rewrite E.
  - apply Forall_cons in IH as [Hh Ht]. constructor; [|done].
    simpl. by rewrite E, Hh.
Qed.

Lemma Forall_removelast {A} (P : A → Prop) l :
  Forall P l → Forall P (removelast l).
Proof.
  induction 1 as [|x l Hx Hl IH]; simpl; [done|].
  destruct l; [done|]. by constructor.
Qed.

(** The components [normpath] keeps are not empty and have no
    separator. *)
Lemma norm_comps_ok k l acc :
  Forall (λ x, x ≠ "" ∧ mem_char sep x = false) acc →
  Forall (λ x, mem_char sep x = false) l →
  Forall (λ x, x ≠ "" ∧ mem_char sep x = false)
    (fold_left (PosixPath.norm_step k) l acc).
Proof.
  revert acc. induction l as [|a l IH]; intros acc Hacc Hl; simpl; [done|].
  apply Forall_cons in Hl as [Ha Hl]. apply IH; [|done].
  unfold PosixPath.norm_step.
  destruct (String.eqb_spec a "") as [->|Hne]; [done|]. simpl.
  destruct (String.eqb a "."); [done|].
  destruct (_ || _ || _); [|by apply Forall_removelast].
  apply Forall_app. split; [done|]. by repeat constructor.
Qed.

Lemma concat_cons c x y l :
  String.concat c (x :: y :: l) = x +:+ c +:+ String.concat c (y :: l).
Proof. reflexivity. Qed.

Lemma split_concat cs :
  cs ≠ [] → Forall (λ x, mem_char sep x = false) cs →
  Str.split sep (String.concat "/" cs) = cs.
Proof.
  induction cs as [|x cs IH]; [done|]. intros _ Hf.
  apply Forall_cons in Hf as [Hx Hf]. destruct cs as [|y cs].
  - simpl. by apply split_none.
  - rewrite concat_cons.
    change ("/" +:+ String.concat "/" (y :: cs))
      with (String sep (String.concat "/" (y :: cs))).
    rewrite split_app_sep, (split_none sep x), IH by done. done.
Qed.

Lemma filter_nonempty (cs : list string) :
  Forall (λ x, x ≠ "" ∧ mem_char sep x = false) cs →
  filter (λ x, x ≠ "") cs = cs.
Proof.
  induction 1 as [|x cs [Hx _] _ IH]; [done|].
  rewrite filter_cons. destruct (decide (x ≠ "")); [|done]. by rewrite IH.
Qed.

(** The components of a normalised absolute path. *)
Lemma nonempty_comps_abs q :
  PosixPath.isabs q = true →
  PosixPath.nonempty_comps (PosixPath.normpath q)
  = fold_left (PosixPath.norm_step (initial_slashes q)) (Str.split sep q) [].
Proof.
  intros Ha. rewrite normpath_abs by done.
  set (cs := fold_left _ _ _).
  assert (Hok : Forall (λ x, x ≠ "" ∧ mem_char sep x = false) cs).
  { apply norm_comps_ok; [constructor|apply split_sep_free]. }
  unfold PosixPath.nonempty_comps, Str.join.
  assert (Hs : filter (λ x, x ≠ "") (Str.split sep (String.concat "/" cs)) = cs).
  { destruct cs as [|c cs'] eqn:E; [done|].
    rewrite split_concat; [by apply filter_nonempty|done|].
    eapply Forall_impl; [exact Hok|]. by intros x [_ H]. }
  destruct (Nat.eqb _ 2).
  - change ("//" +:+ ?s) with (String sep (String sep s)).
    cbn [Str.split]. rewrite Ascii.eqb_refl.
    rewrite !filter_cons. destruct (decide ("" ≠ "")); [done|]. exact Hs.
  - change ("/" +:+ ?s) with (String sep s).
    cbn [Str.split]. rewrite Ascii.eqb_refl.
    rewrite !filter_cons. destruct (decide ("" ≠ "")); [done|]. exact Hs.
Qed.

(** [abspath] of a path and of a name joined to it. *)
Lemma abspath_join cwd p c :
  PosixPath.isabs cwd = true → mem_char sep c = false →
  ∃ q, PosixPath.isabs q = true
       ∧ PosixPath.abspath cwd p = PosixPath.normpath q
       ∧ PosixPath.abspath cwd (PosixPath.join p c)
         = PosixPath.normpath (q +:+ sep_after q +:+ c).
Proof.
  intros Hcwd Hs. pose proof (not_abs_plain c Hs) as Hrel.
  unfold PosixPath.abspath.
  destruct (PosixPath.isabs p) eqn:Hb.
  - exists p. assert (Hne : p ≠ "") by (by intros ->).
    rewrite join_rel by done. by rewrite isabs_app, Hb.
  - exists (PosixPath.join cwd p).
    rewrite (isabs_join_rel p c) by done.
    rewrite join_assoc by done.
    rewrite (join_rel (PosixPath.join cwd p)) by done.
    split; [|done]. rewrite join_rel by done. rewrite isabs_app; [done|].
    intros E. by rewrite E in Hcwd.
Qed.

Lemma nonempty_comps_join cwd p c :
  PosixPath.isabs cwd = true → valid_name c = true →
  PosixPath.nonempty_comps (PosixPath.abspath cwd (PosixPath.join p c))
  = PosixPath.nonempty_comps (PosixPath.abspath cwd p) ++ [c].
Proof.
  intros Hcwd Hv. pose proof (valid_name_inv c Hv) as (_ & _ & _ & Hs).
  destruct (abspath_join cwd p c Hcwd Hs) as (q & Hq & -> & ->).
  assert (Hne : q ≠ "") by (by intros ->).
  rewrite (nonempty_comps_abs q Hq).
  rewrite (nonempty_comps_abs (q +:+ sep_after q +:+ c))
    by (by rewrite isabs_app).
  rewrite initial_slashes_join, comps_join by done.
  by apply norm_step_valid.
Qed.

Lemma nonempty_comps_below cwd p rel :
  PosixPath.isabs cwd = true → Forall (λ c, valid_name c = true) rel →
  PosixPath.nonempty_comps
    (PosixPath.abspath cwd (fold_left PosixPath.join rel p))
  = PosixPath.nonempty_comps (PosixPath.abspath cwd p) ++ rel.
Proof.
  intros Hcwd Hrel. revert p.
  induction Hrel as [|c rel Hc _ IH]; intros p; simpl.
  - by rewrite app_nil_r.
  - rewrite IH, nonempty_comps_join by done. by rewrite <-app_assoc.
Qed.

Lemma common_app l x : PosixPath.common l (l ++ x) = length l.
Proof.
  induction l as [|a l IH]; simpl; [by destruct x|].
  by rewrite String.eqb_refl, IH.
Qed.

(** [relpath] of a file below the start directory: the names on the
    way down. *)
Lemma relpath_below cwd base rel file :
  PosixPath.isabs cwd = true →
  Forall (λ c, valid_name c = true) rel → valid_name file = true →
  PosixPath.relpath cwd
    (PosixPath.join (fold_left PosixPath.join rel base) file) base
  = String.concat "/" (rel ++ [file]).
Proof.
  intros Hcwd Hrel Hfile. unfold PosixPath.relpath.
  rewrite nonempty_comps_join, nonempty_comps_below by done.
  rewrite <-app_assoc, common_app, Nat.sub_diag, drop_app_length.
  simpl. by destruct rel.
Qed.

End Relative.

(** ** The logical name of a walked file *)

Section Logical.

Lemma rev_cons a s : String.rev (String a s) = String.rev s +:+ String a "".
Proof. unfold String.rev. simpl. by rewrite rev_app_app. Qed.

Lemma rev_involutive s : String.rev (String.rev s) = s.
Proof.
  induction s as [|a s IH]; [done|]. by rewrite rev_cons, rev_snoc, IH.
Qed.

Lemma all_char_app c s t : all_char c (s +:+ t) = all_char c s && all_char c t.
Proof.
  induction s as [|a s IH]; [done|].
  rewrite app_cons. simpl. by rewrite IH, andb_assoc.
Qed.

Lemma all_char_rev c s : all_char c (String.rev s) = all_char c s.
Proof.
  induction s as [|a s IH]; [done|].
  rewrite rev_cons, all_char_app, IH. simpl.
  by rewrite andb_true_r, andb_comm.
Qed.

(** [stem] and the last dot that [splitext] looks for. *)
Lemma stem_spec s :
  ((rpartition extsep s).1 = "" ∧ stem s = s ∧ mem_char extsep s = false)
  ∨ (∃ d, (rpartition extsep s).1 = d +:+ "." ∧ stem s = d
          ∧ mem_char extsep s = true).
Proof.
  induction s as [|a s IH]; [by left|].
  cbn [rpartition stem mem_char].
  destruct (rpartition extsep s) as [h t]; simpl in IH.
  destruct IH as [(-> & Hs & Hm)|(d & -> & Hs & Hm)].
  - rewrite Hm. destruct (Ascii.eqb a extsep) eqn:E; simpl.
    + right. exists "". apply Ascii.eqb_eq in E as ->. done.
    + by left.
  - rewrite Hm, orb_true_r. right. exists (String a d).
    rewrite Hs. by destruct d.
Qed.

Lemma rpartition_snoc c d :
  rpartition c (d +:+ String c "") = (d +:+ String c "", "").
Proof.
  induction d as [|a d IH].
  - change ("" +:+ String c "") with (String c ""). simpl.
    by rewrite Ascii.eqb_refl.
  - rewrite app_cons. cbn [rpartition]. rewrite IH. by destruct d.
Qed.

Lemma concat_last rel x :
  String.concat "/" (rel ++ [x]) = before_last rel +:+ x.
Proof.
  destruct rel as [|c rel]; [done|].
  rewrite concat_snoc by done. unfold before_last.
  by rewrite app_assoc'.
Qed.

Lemma rpartition_concat rel file :
  mem_char sep file = false →
  rpartition sep (String.concat "/" (rel ++ [file])) = (before_last rel, file).
Proof.
  intros Hf. rewrite concat_last, rpartition_app by done.
  destruct rel as [|c rel]; [done|]. unfold before_last.
  change "/" with (String sep ""). by rewrite rpartition_snoc.
Qed.

(** [splitext] of a relative path whose last name is not hidden
    removes what follows the last dot of that name. *)
Lemma splitext_below rel file :
  mem_char sep file = false → ishidden file = false →
  (PosixPath.splitext (String.concat "/" (rel ++ [file]))).1
  = String.concat "/" (rel ++ [stem file]).
Proof.
  intros Hs Hh. unfold PosixPath.splitext.
  rewrite rpartition_concat by done.
  destruct (rpartition_spec extsep file) as (Hfile & _ & _).
  destruct (rpartition extsep file) as [pre suf] eqn:Ep.
  destruct (stem_spec file) as [(Hp & Hst & _)|(d & Hp & Hst & _)];
    rewrite Ep in Hp; simpl in Hp, Hfile; subst pre.
  - simpl. by rewrite Hst.
  - change "." with (String extsep ""). rewrite rev_snoc.
    rewrite all_char_rev, rev_involutive.
    rewrite Hfile in Hh. unfold ishidden, startswith in Hh.
    destruct d as [|x d].
    { exfalso. change (("" +:+ ".") +:+ suf) with (String "." suf) in Hh.
      by rewrite prefix_cons, prefix_nil in Hh. }
    assert (Hx : Ascii.eqb x extsep = false).
    { rewrite !app_cons, prefix_cons, prefix_nil, andb_true_r in Hh.
      by rewrite Ascii.eqb_sym. }
    cbn [all_char]. rewrite Hx. simpl.
    by rewrite concat_last, Hst.
Qed.

(** The sheet name the two loops compute for a walked file. *)
Lemma sheet_name_below w base rel file :
  PosixPath.isabs (cwd w) = true →
  Forall (λ c, valid_name c = true) rel → valid_name file = true →
  ishidden file = false →
  sheet_name w base (fold_left PosixPath.join rel base) file
  = logical_name rel file.
Proof.
  intros Hcwd Hrel Hfile Hh. unfold sheet_name, logical_name.
  rewrite relpath_below by done.
  apply splitext_below; [|done]. apply valid_name_inv in Hfile. tauto.
Qed.

End Logical.

(** ** Where the walked files are *)

Section Located.

Variable w : world.

Lemma get_prefix_dir r k c k' n :
  get r (k ++ c :: k') = Some n → is_dir_at r k = true.
Proof.
  rewrite get_app. unfold is_dir_at.
  by destruct (get r k) as [[m d|es]|].
Qed.

Lemma get_above_dir r k k' n :
  k' ≠ [] → get r (k ++ k') = Some n → is_dir_at r k = true.
Proof. destruct k' as [|c k']; [done|]. intros _. apply get_prefix_dir. Qed.





(** The files the walking loops visit are the regular files below
    the layer directory whose own name is not hidden. *)
Lemma visible_files_below base kb root file :
  well_formed (FS.root w) = true →
  locate w base = Some kb →
  (root, file) ∈ visible_files w base
  ↔ ∃ rel m d,
      root = fold_left PosixPath.join rel base
      ∧ get (FS.root w) (kb ++ rel ++ [file]) = Some (File m d)
      ∧ ishidden file = false.
Proof.
  intros Hw Hb. rewrite elem_of_visible_files. unfold walked, walk, stat.
  rewrite Hb. split.
  - intros [(dirs & files & Hin & Hf) Hh].
    destruct (get (FS.root w) kb) as [n|] eqn:Hn;
      [|by apply elem_of_nil in Hin].
    destruct (well_formed_get _ _ _ Hw Hn) as [Hwn _].
    apply walk_node_elem in Hin as (rel & es & Hg & -> & -> & ->); [|done].
    apply elem_of_nondirs in Hf as (m & d & Hf).
    destruct (well_formed_get _ _ _ Hwn Hg) as [Hwes _].
    destruct (well_formed_dir es Hwes) as [Hnd _].
    exists rel, m, d. split; [done|]. split; [|done].
    rewrite get_app, Hn, get_app, Hg. simpl.
    by rewrite (assoc_NoDup file _ es Hnd Hf).
  - intros (rel & m & d & -> & Hg & Hh). split; [|done].
    rewrite get_app in Hg.
    destruct (get (FS.root w) kb) as [n|] eqn:Hn; [|done].
    destruct (well_formed_get _ _ _ Hw Hn) as [Hwn _].
    rewrite get_app in Hg.
    destruct (get n rel) as [n1|] eqn:Hn1; [|done].
    destruct n1 as [m1 d1|es]; [done|]. simpl in Hg.
    destruct (assoc file es) as [x|] eqn:Ea; [|done]. injection Hg as ->.
    apply assoc_elem_of in Ea.
    exists (subdirs es), (nondirs es). split.
    + apply walk_node_elem; [done|]. by exists rel, es.
    + apply elem_of_nondirs. eauto.
Qed.

End Located.

(** ** A file and the entries of its directory *)

Section Entries.

Variable w : world.

Lemma rstrip_char_nonempty c d : all_char c d = false → rstrip_char c d ≠ "".
Proof.
  induction d as [|a d IH]; simpl; [done|].
  destruct (rstrip_char c d); [|done].
  destruct (Ascii.eqb a c); [|done]. simpl. intros H. by apply IH.
Qed.

(** A path with an empty [dirname] is a single name. *)
Lemma dirname_empty p :
  PosixPath.dirname p = "" →
  mem_char sep p = false ∧ PosixPath.basename p = p.
Proof.
  unfold PosixPath.dirname, PosixPath.basename, PosixPath.split.
  destruct (rpartition_spec sep p) as (Hp & Ht & Hh).
  destruct (rpartition sep p) as [h t]; simpl in *.
  destruct Hh as [->|[d ->]].
  - intros _. change ("" +:+ t) with t in Hp. by subst.
  - rewrite all_char_snoc.
    assert (Hne : (d +:+ String sep "" =? "")%string = false).
    { apply String.eqb_neq. by destruct d. }
    rewrite Hne. simpl negb. rewrite andb_true_l.
    destruct (all_char sep d) eqn:Ea; simpl negb; cbv iota; simpl fst.
    + by destruct d.
    + rewrite rstrip_char_snoc. intros E.
      by apply rstrip_char_nonempty in Ea.
Qed.

(** The last step of a walk that ends at a regular file goes from a
    directory to one of its entries. *)
Lemma walk_comps_file k c m d k' :
  walk_comps (root w) k [c] = Some k' →
  get (root w) k' = Some (File m d) →
  ∃ es, get (root w) k = Some (Dir es) ∧ assoc c es = Some (File m d).
Proof.
  cbn [walk_comps]. destruct (is_dir_at (root w) k) eqn:Hd; [|done].
  pose proof Hd as [es Hes]%is_dir_at_get.
  destruct (_ || _).
  { intros [= <-]. by rewrite Hes. }
  destruct (String.eqb c "..").
  { intros [= <-] Hg. apply is_dir_at_removelast, is_dir_at_get in Hd as [? H].
    by rewrite H in Hg. }
  intros [= <-]. rewrite get_app, Hes. simpl.
  destruct (assoc c es) as [n|] eqn:Ea; [|done]. intros [= ->].
  by exists es.
Qed.

(** A regular file is an entry of the directory [dirname] names. *)
Lemma isfile_in_scandir p :
  isfile w p = true →
  PosixPath.basename p
  ∈ scandir w (if String.eqb (PosixPath.dirname p) "" then "."
               else PosixPath.dirname p).
Proof.
  unfold isfile, scandir, stat. intros Hf.
  destruct (locate w p) as [kp|] eqn:Hloc; [|done].
  destruct (get (root w) kp) as [[m d|]|] eqn:Hg; [|done..]. clear Hf.
  unfold locate in Hloc |- *.
  destruct (String.eqb_spec p "") as [->|Hp]; [done|].
  destruct (String.eqb_spec (PosixPath.dirname p) "") as [Hd|Hd].
  - apply dirname_empty in Hd as [Hs ->].
    unfold comps_of in *. rewrite (not_abs_plain p Hs) in Hloc.
    rewrite (split_none sep p Hs) in Hloc. simpl.
    rewrite walk_comps_app in Hloc |- *.
    destruct (walk_comps (root w) [] (Str.split sep (cwd w))) as [k0|];
      [|done].
    destruct (walk_comps_file _ _ _ _ _ Hloc Hg) as (es & Hes & Ha).
    cbn [walk_comps]. rewrite (proj2 (is_dir_at_get _ _)) by eauto.
    simpl. rewrite Hes. apply list_elem_of_fmap.
    exists (p, File m d). split; [done|]. by apply assoc_elem_of.
  - destruct (dirname_shape p Hd) as (Habs & l & n & Hl & j & Hj).
    apply String.eqb_neq in Hd. rewrite Hd.
    unfold comps_of in *. rewrite Habs, Hj in Hloc. rewrite Hl.
    set (pre := if PosixPath.isabs (PosixPath.dirname p) then []
                else Str.split sep (cwd w)) in *.
    assert (∀ x, (if PosixPath.isabs (PosixPath.dirname p) then x
                  else Str.split sep (cwd w) ++ x) = pre ++ x) as Hpre.
    { intros x. unfold pre. by destruct (PosixPath.isabs _). }
    rewrite Hpre in Hloc |- *.
    rewrite walk_comps_app in Hloc |- *.
    destruct (walk_comps (root w) [] pre) as [k0|]; [|done].
    rewrite walk_comps_app in Hloc |- *.
    destruct (walk_comps (root w) k0 l) as [k1|] eqn:E1; [|done].
    rewrite walk_comps_app in Hloc.
    assert (Hk1 : is_dir_at (root w) k1 = true).
    { destruct j as [|j]; simpl in Hloc.
      - by destruct (is_dir_at (root w) k1).
      - by destruct (is_dir_at (root w) k1). }
    rewrite walk_comps_empties in Hloc |- * by done.
    destruct (walk_comps_file _ _ _ _ _ Hloc Hg) as (es & Hes & Ha).
    rewrite Hes. apply list_elem_of_fmap.
    exists (PosixPath.basename p, File m d). split; [done|].
    by apply assoc_elem_of.
Qed.

(** A regular file [target.ext] is a match of [target.*], for a
    [target] free of glob characters. *)
Lemma glob_finds_extension target ext :
  has_magic target = false → mem_char sep ext = false →
  isfile w (target +:+ "." +:+ ext) = true →
  glob w (target +:+ ".*") ≠ [].
Proof.
  intros Hm He Hf. rewrite glob_literal_ext by done.
  apply isfile_in_scandir in Hf.
  assert (Hde : mem_char sep ("." +:+ ext) = false).
  { change ("." +:+ ext) with (String "." ext). cbn [mem_char].
    by rewrite He. }
  assert (Hsplit : PosixPath.split (target +:+ "." +:+ ext)
                   = (PosixPath.dirname target,
                      PosixPath.basename target +:+ "." +:+ ext)).
  { unfold PosixPath.split, PosixPath.dirname, PosixPath.basename,
      PosixPath.split.
    rewrite rpartition_app by exact Hde.
    destruct (rpartition sep target) as [h u]; simpl.
    destruct (negb (h =? "")%string && negb (all_char sep h)); done. }
  assert (Hd : PosixPath.dirname (target +:+ "." +:+ ext)
               = PosixPath.dirname target).
  { unfold PosixPath.dirname at 1. by rewrite Hsplit. }
  assert (Hb : PosixPath.basename (target +:+ "." +:+ ext)
               = PosixPath.basename target +:+ "." +:+ ext).
  { unfold PosixPath.basename at 1.
    by rewrite rpartition_app by exact Hde. }
  rewrite Hd, Hb in Hf.
  intros E. apply fmap_nil_inv in E.
  assert (Hin : PosixPath.basename target +:+ "." +:+ ext
                ∈ filter (λ x, startswith x (PosixPath.basename target +:+ ".")
                               = true)
                    (scandir w (if (PosixPath.dirname target =? "")%string
                                then "." else PosixPath.dirname target))).
  { apply list_elem_of_filter. split; [|done].
    unfold startswith. rewrite <-app_assoc'. apply prefix_app. }
  rewrite E in Hin. by apply elem_of_nil in Hin.
Qed.

End Entries.

(** ** The recursion of [glob] *)

Section Fuel.

Lemma length_app s t :
  String.length (s +:+ t) = (String.length s + String.length t)%nat.
Proof.
  induction s as [|a s IH]; [done|]. rewrite app_cons. simpl. by rewrite IH.
Qed.

Lemma rstrip_char_shorter c s :
  rstrip_char c s = s
  ∨ (String.length (rstrip_char c s) < String.length s)%nat.
Proof.
  destruct (rstrip_char_spec c s) as [n Hs].
  destruct n as [|n].
  - left. rewrite app_empty_r in Hs. done.
  - right. rewrite Hs at 2. rewrite length_app. simpl. lia.
Qed.

(** [dirname] is shorter than the path, unless it is the path. *)
Lemma dirname_shorter p :
  PosixPath.dirname p = p
  ∨ (String.length (PosixPath.dirname p) < String.length p)%nat.
Proof.
  unfold PosixPath.dirname, PosixPath.split.
  destruct (rpartition_spec sep p) as (Hp & _ & _).
  destruct (rpartition sep p) as [h t]; simpl in *.
  assert (Hlen : String.length p = (String.length h + String.length t)%nat).
  { rewrite Hp at 1. apply length_app. }
  assert (Ht : t = "" → p = h).
  { intros ->. by rewrite app_empty_r in Hp. }
  destruct (_ && _); simpl.
  - destruct (rstrip_char_shorter sep h) as [->|Hlt].
    + destruct t as [|a t]; [left; by rewrite Ht|right; simpl in Hlen; lia].
    + right. lia.
  - destruct t as [|a t]; [left; by rewrite Ht|right; simpl in Hlen; lia].
Qed.

(** The fuel [glob] starts with is never used up: more makes no
    difference. *)
Lemma iglob_fuel w n m pathname dironly :
  (String.length pathname < n)%nat → (String.length pathname < m)%nat →
  iglob n w pathname dironly = iglob m w pathname dironly.
Proof.
  revert m pathname dironly.
  induction n as [|n IH]; intros [|m] pathname dironly Hn Hm; try lia.
  cbn [iglob].
  destruct (PosixPath.split pathname) as [dirname basename] eqn:Es.
  assert (Hd : PosixPath.dirname pathname = dirname).
  { unfold PosixPath.dirname. by rewrite Es. }
  destruct (negb (has_magic pathname)); [done|].
  destruct (String.eqb dirname ""); [done|].
  destruct (String.eqb_spec dirname pathname) as [_|Hne]; [done|].
  destruct (has_magic dirname); [|done]. simpl andb. cbv iota.
  destruct (dirname_shorter pathname) as [E|Hlt]; [congruence|].
  rewrite Hd in Hlt. by rewrite (IH m dirname true) by lia.
Qed.

End Fuel.

(** ** Letter case *)

Section LetterCase.





Lemma nat_of_ascii_inj a b : nat_of_ascii a = nat_of_ascii b → a = b.
Proof.
  intros H. rewrite <-(ascii_nat_embedding a), <-(ascii_nat_embedding b).
  by rewrite H.
Qed.

(** [lower_char] identifies exactly the two cases of a letter. *)
Lemma lower_char_same a b : lower_char a = lower_char b ↔ same_letter a b.
Proof.
  unfold lower_char, same_letter.
  pose proof (nat_ascii_bounded a) as Ha.
  pose proof (nat_ascii_bounded b) as Hb.
  set (x := nat_of_ascii a) in *. set (y := nat_of_ascii b) in *.
  destruct (Nat.leb_spec 65 x), (Nat.leb_spec x 90),
    (Nat.leb_spec 65 y), (Nat.leb_spec y 90); simpl; split.
  all: try (intros Heq; apply (f_equal nat_of_ascii) in Heq;
            rewrite ?nat_ascii_embedding in Heq by lia; fold x y in Heq;
            lia).
  all: intros Hs; apply nat_of_ascii_inj;
    rewrite ?nat_ascii_embedding by lia; fold x y; lia.
Qed.

Lemma lower_same u v : lower u = lower v ↔ same_text u v.
Proof.
  revert v. induction u as [|a u IH]; intros [|b v]; simpl; try done.
  rewrite <-IH, <-lower_char_same. split.
  - by intros [= -> ->].
  - by intros [-> ->].
Qed.


End LetterCase.

(** ** The listing and the search, in terms of the tree *)

Section Sheets.

Variable w : world.
Hypothesis Hwf : well_formed (root w) = true.
Hypothesis Hcwd : PosixPath.isabs (cwd w) = true.

(** A walked file with a visible name, and the sheet name computed for
    it, are a regular file below the layer directory and its logical
    name. *)
Lemma visible_sheet (entry : layer) (P : string → string → string → Prop) :
  (∃ root file,
     isdir w (path entry) = true
     ∧ walked w (path entry) root file ∧ ishidden file = false
     ∧ P root file (sheet_name w (path entry) root file))
  ↔ ∃ kb rel file m d,
      locate w (path entry) = Some kb
      ∧ get (FS.root w) (kb ++ rel ++ [file]) = Some (File m d)
      ∧ ishidden file = false
      ∧ P (fold_left PosixPath.join rel (path entry)) file
          (logical_name rel file).
Proof.
  split.
  - intros (root & file & Hd & Hw & Hh & HP).
    unfold isdir, stat in Hd.
    destruct (locate w (path entry)) as [kb|] eqn:Hb; [|done].
    assert (Hv : (root, file) ∈ visible_files w (path entry))
      by (by apply elem_of_visible_files).
    apply (visible_files_below w _ kb) in Hv as (rel & m & d & -> & Hg & _);
      [|done..].
    destruct (well_formed_get _ _ _ Hwf Hg) as [_ Hall].
    apply Forall_app in Hall as [_ [Hrel Hfile]%Forall_app].
    apply Forall_cons in Hfile as [Hfile _].
    rewrite sheet_name_below in HP by done.
    by exists kb, rel, file, m, d.
  - intros (kb & rel & file & m & d & Hb & Hg & Hh & HP).
    destruct (well_formed_get _ _ _ Hwf Hg) as [_ Hall].
    apply Forall_app in Hall as [_ [Hrel Hfile]%Forall_app].
    apply Forall_cons in Hfile as [Hfile _].
    exists (fold_left PosixPath.join rel (path entry)), file.
    assert (Hv : (fold_left PosixPath.join rel (path entry), file)
                 ∈ visible_files w (path entry)).
    { apply (visible_files_below w _ kb); [done..|]. by exists rel, m, d. }
    apply elem_of_visible_files in Hv as [Hw _].
    rewrite sheet_name_below by done.
    split; [|done]. unfold isdir, stat. rewrite Hb.
    apply (get_above_dir _ kb (rel ++ [file])) in Hg; [|by destruct rel].
    apply is_dir_at_get in Hg as [es ->]. done.
Qed.

End Sheets.

(** C6. In a well-formed tree the listing has no duplicate, is sorted in
    lexicographic order, and holds exactly the logical names of the
    sheets held by the layers that pass the filter: a name that several
    layers hold is listed once. *)
Theorem list_cheatsheets_sorted_unique
    (w : world) (paths : list layer) (filter_path_name : option string) :
  well_formed (root w) = true →
  PosixPath.isabs (cwd w) = true →
  let out := list_cheatsheets w paths filter_path_name in
  NoDup out
  ∧ Sorted String.le out
  ∧ ∀ s, s ∈ out ↔
      ∃ e, e ∈ paths ∧ filtered_out filter_path_name e = false
           ∧ holds_sheet w e s.
Proof.
  intros Hwf Hcwd out. split; [|split].
  - unfold out, list_cheatsheets.
    rewrite merge_sort_Permutation. apply NoDup_elements.
  - apply (Sorted_merge_sort String.le).
  - intros s. unfold out. rewrite elem_of_list_cheatsheets, elem_of_added.
    unfold holds_sheet. split.
    + intros (e & root & file & He & Hf & H). exists e.
      split; [done|]. split; [done|].
      apply (visible_sheet w Hwf Hcwd e (λ _ _ name, s = name)). eauto.
    + intros (e & He & Hf & H).
      apply (visible_sheet w Hwf Hcwd e (λ _ _ name, s = name)) in H
        as (root & file & H).
      exists e, root, file. tauto.
Qed.

(** [tar] is held by three layers, as [tar.md], [tar.txt] and [tar]. *)
Lemma list_cheatsheets_sorted_unique_witness :
  well_formed (root Sample.layered_world) = true
  ∧ PosixPath.isabs (cwd Sample.layered_world) = true
  ∧ let out :=
      list_cheatsheets Sample.layered_world
        [Sample.global_ro; Layer "work" "/w" None [];
         Layer "local" "/proj/.cheat" (Some false) ["local"]] None in
    NoDup out
    ∧ Sorted String.le out
    ∧ ∀ s, s ∈ out ↔
        ∃ e, e ∈ [Sample.global_ro; Layer "work" "/w" None [];
                  Layer "local" "/proj/.cheat" (Some false) ["local"]]
             ∧ filtered_out None e = false
             ∧ holds_sheet Sample.layered_world e s.
Proof.
  split; [reflexivity|]. split; [reflexivity|].
  exact (list_cheatsheets_sorted_unique Sample.layered_world
           [Sample.global_ro; Layer "work" "/w" None [];
            Layer "local" "/proj/.cheat" (Some false) ["local"]] None
           eq_refl eq_refl).
Defined.



(** The hit of the sample, with the letters of the term in the other
    case. *)
Example search_line_tar :
  search_line Sample.tar_world "XZF" [Sample.global_ro; Sample.work_rw]
    "tar:3: tar -xzf file.tar.gz".
Proof.
  exists Sample.global_ro, ["g"], [], "tar.md", 7%Z,
    ("# tar" +:+ Sample.nl +:+ Sample.nl +:+ "tar -xzf file.tar.gz"
     +:+ Sample.nl), 2%nat, ("tar -xzf file.tar.gz" +:+ Sample.nl).
  split; [by left|]. split; [reflexivity|]. split; [reflexivity|].
  split; [reflexivity|]. split; [reflexivity|]. split; [|reflexivity].
  exists "tar -", "xzf", (" file.tar.gz" +:+ Sample.nl).
  split; [reflexivity|]. apply lower_same. reflexivity.
Qed.

(** ** Sheets that are found *)

Section Found.

Variable w : world.

Lemma has_magic_app s t :
  has_magic (s +:+ t) = has_magic s || has_magic t.
Proof.
  unfold has_magic. rewrite !mem_char_app.
  destruct (mem_char star s), (mem_char qmark s), (mem_char lbracket s),
    (mem_char star t), (mem_char qmark t); done.
Qed.

Lemma has_magic_join a b :
  has_magic a = false → has_magic b = false →
  has_magic (PosixPath.join a b) = false.
Proof.
  intros Ha Hb. unfold PosixPath.join.
  destruct (startswith b "/"); [done|].
  destruct (_ || _); rewrite !has_magic_app, Ha, Hb; done.
Qed.

(** A layer whose directory and name are free of glob characters has
    the sheet when the file exists, exactly so named or with an
    extension. *)
Lemma probe_finds_file (e : layer) cheatname ext :
  has_magic (path e) = false → has_magic cheatname = false →
  inside w (path e) (PosixPath.join (path e) cheatname) = true →
  mem_char sep ext = false →
  isfile w (PosixPath.join (path e) cheatname) = true
  ∨ isfile w (PosixPath.join (path e) cheatname +:+ "." +:+ ext) = true →
  is_Some (probe w cheatname e).
Proof.
  intros Hp Hn Hin He Hf. apply probe_has_sheet. split; [done|].
  destruct Hf as [Hf|Hf]; [by left|]. right.
  apply (glob_finds_extension w _ ext); [|done..].
  by apply has_magic_join.
Qed.

(** Where no glob character is involved, the most local layer that
    holds the file answers, whatever the more global layers hold. *)
Lemma find_cheatsheet_local_overrides
    (globals locals : list layer) (e : layer) cheatname ext :
  has_magic (path e) = false → has_magic cheatname = false →
  inside w (path e) (PosixPath.join (path e) cheatname) = true →
  mem_char sep ext = false →
  isfile w (PosixPath.join (path e) cheatname) = true
  ∨ isfile w (PosixPath.join (path e) cheatname +:+ "." +:+ ext) = true →
  Forall (λ l, probe w cheatname l = None) locals →
  ∃ p, find_cheatsheet w cheatname (globals ++ e :: locals) = Some (e, p).
Proof.
  intros Hp Hn Hin He Hf Hl.
  destruct (probe_finds_file e cheatname ext Hp Hn Hin He Hf) as [p Hprobe].
  exists p. by apply find_cheatsheet_split.
Qed.

End Found.

(** X22. A plain name that a layer holds as a regular file, named
    exactly so or with an extension, is always found when neither the
    layer directory nor the name has a glob character: the lookup does
    not come back empty. *)
Theorem plain_sheet_is_found
    (w : world) (cheatname ext : string) (paths : list layer) (e : layer) :
  PosixPath.isabs (cwd w) = true →
  plain cheatname →
  has_magic (path e) = false → has_magic cheatname = false →
  e ∈ paths →
  mem_char sep ext = false →
  isfile w (PosixPath.join (path e) cheatname) = true
  ∨ isfile w (PosixPath.join (path e) cheatname +:+ "." +:+ ext) = true →
  is_Some (find_cheatsheet w cheatname paths).
Proof.
  intros Hcwd Hplain Hp Hn He Hext Hf.
  assert (Hs : is_Some (probe w cheatname e)).
  { apply (probe_finds_file w e cheatname ext); [done..| |done|done].
    by apply inside_plain_name. }
  destruct (find_cheatsheet w cheatname paths) as [r|] eqn:Ef; [by eauto|].
  unfold find_cheatsheet in Ef. apply find_in_none_inv in Ef.
  rewrite Forall_forall in Ef.
  specialize (Ef e (proj2 (elem_of_reverse _ _) He)).
  rewrite Ef in Hs. by destruct Hs.
Qed.

Lemma plain_sheet_is_found_witness :
  PosixPath.isabs (cwd Sample.layered_world) = true
  ∧ plain "tar"
  ∧ has_magic (path Sample.global_ro) = false
  ∧ has_magic "tar" = false
  ∧ Sample.global_ro ∈ [Sample.global_ro; Sample.personal]
  ∧ mem_char sep "md" = false
  ∧ (isfile Sample.layered_world (PosixPath.join (path Sample.global_ro) "tar")
     = true
     ∨ isfile Sample.layered_world
         (PosixPath.join (path Sample.global_ro) "tar" +:+ "." +:+ "md")
       = true)
  ∧ is_Some (find_cheatsheet Sample.layered_world "tar"
               [Sample.global_ro; Sample.personal]).
Proof.
  assert (H2 : plain "tar") by (split; [reflexivity|discriminate]).
  assert (H3 : Sample.global_ro ∈ [Sample.global_ro; Sample.personal])
    by (by left).
  assert (H4 : isfile Sample.layered_world
                 (PosixPath.join (path Sample.global_ro) "tar") = true
               ∨ isfile Sample.layered_world
                   (PosixPath.join (path Sample.global_ro) "tar"
                    +:+ "." +:+ "md") = true).
  { right. reflexivity. }
  split; [reflexivity|]. split; [exact H2|]. split; [reflexivity|].
  split; [reflexivity|]. split; [exact H3|]. split; [reflexivity|].
  split; [exact H4|].
  exact (plain_sheet_is_found Sample.layered_world "tar" "md"
           [Sample.global_ro; Sample.personal] Sample.global_ro eq_refl
           H2 eq_refl eq_refl H3 eq_refl H4).
Defined.

(** With a bracket in the layer directory the file is there and the
    lookup comes back empty. *)
Example bracket_sheet_is_not_found :
  isfile Sample.bracket_world "/x[1]/tar.md" = true
  ∧ find_cheatsheet Sample.bracket_world "tar" [Sample.bracket_layer] = None.
Proof. split; vm_compute; reflexivity. Qed.
